(** * Chunk stitching of [SequenceLabeler] (finetune/sequence_labeling.py)

    A shallow embedding of [SequenceLabeler.predict],
    [SequenceLabeler.predict_proba], [_predict_op] and [_predict_proba_op],
    together with the properties of window selection, span stitching and
    per-document assembly that the loops of these methods establish.

    Python integers are [Z]; lists are [list]; a text is a list of
    characters; class labels and tokens are strings.  Exceptions are an
    explicit error result.  The tokenizer, the scorer, the decode primitive
    and the format adapter live outside this file of the repository and are
    Section variables. *)

From Stdlib Require Import ZArith List String Ascii Bool Lia.
Import ListNotations.

Open Scope Z_scope.

(** ** Python primitives used by the methods *)

Module Py.

Inductive exn : Type :=
| IndexError
| UnboundLocalError.

Inductive result (A : Type) : Type :=
| Ok (a : A)
| Raise (e : exn).

Arguments Ok {A} a.
Arguments Raise {A} e.

Definition bind {A B : Type} (r : result A) (k : A -> result B) : result B :=
  match r with
  | Ok a => k a
  | Raise e => Raise e
  end.

Definition of_option {A : Type} (e : exn) (o : option A) : result A :=
  match o with
  | Some a => Ok a
  | None => Raise e
  end.

Definition len {A : Type} (l : list A) : Z := Z.of_nat (List.length l).

(** Bound of a slice, as CPython adjusts it for a step of 1: a negative
    bound counts from the end, and every bound is clamped to [0, len]. *)
Definition slice_index (n i : Z) : Z :=
  if i <? 0 then Z.max 0 (i + n) else Z.min i n.

(** [l[start:stop]]; [None] is an omitted bound. *)
Definition slice {A : Type} (start stop : option Z) (l : list A) : list A :=
  let n := len l in
  let lo := match start with Some i => slice_index n i | None => 0 end in
  let hi := match stop with Some j => slice_index n j | None => n end in
  firstn (Z.to_nat (hi - lo)) (skipn (Z.to_nat lo) l).

(** [l[i]]: a negative index counts from the end; out of range is an
    IndexError. *)
Definition getitem {A : Type} (l : list A) (i : Z) : result A :=
  let j := if i <? 0 then i + len l else i in
  if j <? 0 then Raise IndexError
  else of_option IndexError (nth_error l (Z.to_nat j)).

(** [zip(a, b)] stops at the shorter argument. *)
Definition zip {A B : Type} (a : list A) (b : list B) : list (A * B) :=
  combine a b.

(** [l.append(x)] *)
Definition append {A : Type} (l : list A) (x : A) : list A := l ++ [x].

(** A dict as its items in insertion order; assigning to a key that is
    present keeps the key's place and replaces the value. *)
Fixpoint dict_set {V : Type} (k : string) (v : V) (d : list (string * V))
  : list (string * V) :=
  match d with
  | [] => [(k, v)]
  | (k', v') :: d' =>
      if String.eqb k k' then (k, v) :: d' else (k', v') :: dict_set k v d'
  end.

(** [dict(pairs)] *)
Definition dict {V : Type} (pairs : list (string * V)) : list (string * V) :=
  fold_left (fun d kv => dict_set (fst kv) (snd kv) d) pairs [].

(** [d.get(k)] *)
Fixpoint dict_get {V : Type} (d : list (string * V)) (k : string) : option V :=
  match d with
  | [] => None
  | (k', v) :: d' => if String.eqb k k' then Some v else dict_get d' k
  end.

End Py.

Import Py.

Notation "x <- c ;; k" := (Py.bind c (fun x => k))
  (at level 61, c at next level, right associativity).
Notation "' pat <- c ;; k" := (Py.bind c (fun x => match x with pat => k end))
  (at level 61, pat pattern, c at next level, right associativity).

(** ** Data *)

Definition text : Type := list ascii.
Definition label : Type := string.
Definition token : Type := string.

(** The fields of [ArrayEncodedOutput] the two methods read, one entry per
    chunk: [token_ids[chunk]] is a table of rows (token id, position id). *)
Record ArrayEncodedOutput : Type := {
  token_ids : list (list (list Z));
  tokens : list (list token);
  char_locs : list (list Z)
}.

(** What the methods read of [self]. *)
Record Model : Type := {
  encoder_start : Z;
  config_max_length : Z;
  config_subtoken_predictions : bool;
  classes_ : list label
}.

(** [max_length or self.config.max_length]: [None] and [0] are falsy. *)
Definition max_length_or (max_length : option Z) (default : Z) : Z :=
  match max_length with
  | Some m => if m =? 0 then default else m
  | None => default
  end.

(** [chunk_size = max_length - 2; step_size = chunk_size // 3] *)
Definition chunk_size_of (max_length : Z) : Z := max_length - 2.
Definition step_size_of (max_length : Z) : Z := chunk_size_of max_length / 3.

(** [arr_encoded.token_ids[chunk_idx][0][0]] *)
Definition first_token_id (enc : ArrayEncodedOutput) (chunk_idx : Z) : result Z :=
  chunk <- getitem (token_ids enc) chunk_idx ;;
  row <- getitem chunk 0 ;;
  getitem row 0.

(** [start_of_doc] of either method. *)
Definition start_of_doc_at (m : Model) (enc : ArrayEncodedOutput) (chunk_idx : Z)
  : result bool :=
  id <- first_token_id enc chunk_idx ;;
  Ok (id =? encoder_start m).

(** [end_of_doc] of either method; [or] evaluates its right operand only
    when the left one is false. *)
Definition end_of_doc_at (m : Model) (enc : ArrayEncodedOutput) (chunk_idx : Z)
  : result bool :=
  if chunk_idx + 1 >=? len (char_locs enc) then Ok true
  else
    id <- first_token_id enc (chunk_idx + 1) ;;
    Ok (id =? encoder_start m).

(** The slice either method takes of each per-token sequence of a chunk
    (predict, lines 70-85; predict_proba, lines 153-162). *)
Definition window {A : Type} (step_size : Z) (start_of_doc end_of_doc : bool)
  (seq : list A) : list A :=
  if start_of_doc then
    if negb end_of_doc then slice None (Some (step_size * 2)) seq
    else seq
  else
    if end_of_doc then slice (Some step_size) None seq
    else slice (Some step_size) (Some (step_size * 2)) seq.

(** ** predict: the stitching loop *)

(** The three locals that hold the open document.  Before the first chunk
    that starts a document, [doc_subseqs] still names the tokenizer input
    of line 45 while [doc_labels] and [start_of_token] are unbound. *)
Inductive doc_vars : Type :=
| NoDoc
| InDoc (doc_subseqs : list text) (doc_labels : list label) (start_of_token : Z).

Record stitch_state : Type := {
  vars : doc_vars;
  doc_idx : Z;
  all_subseqs : list (list text);
  all_labels : list (list label)
}.

(** [doc_subseqs[-1] += s] *)
Definition extend_last (subseqs : list text) (s : text) : result (list text) :=
  cur <- getitem subseqs (-1) ;;
  Ok (removelast subseqs ++ [cur ++ s]).

(** Body of the token loop, lines 88-102.  [pre] is the tokenizer input
    that [doc_subseqs] names until a document starts. *)
Definition stitch_token (X : list text) (pre : list (list text)) (doc_idx : Z)
  (v : doc_vars) (lp : label * Z) : result doc_vars :=
  let '(label, position) := lp in
  if position =? -1 then Ok v
  else
    match v with
    | NoDoc =>
        match pre with
        | [] => _ <- getitem X doc_idx ;; Raise UnboundLocalError
        | _ :: _ => Raise UnboundLocalError
        end
    | InDoc doc_subseqs doc_labels start_of_token =>
        fresh <- (match doc_subseqs with
                  | [] => Ok true
                  | _ :: _ =>
                      prev <- getitem doc_labels (-1) ;;
                      Ok (negb (String.eqb label prev))
                  end) ;;
        doc <- getitem X doc_idx ;;
        let piece := slice (Some start_of_token) (Some position) doc in
        if (fresh : bool) then
          Ok (InDoc (append doc_subseqs piece) (append doc_labels label) position)
        else
          subseqs' <- extend_last doc_subseqs piece ;;
          Ok (InDoc subseqs' doc_labels position)
    end.

Fixpoint stitch_tokens (X : list text) (pre : list (list text)) (doc_idx : Z)
  (v : doc_vars) (pairs : list (label * Z)) : result doc_vars :=
  match pairs with
  | [] => Ok v
  | lp :: rest =>
      v' <- stitch_token X pre doc_idx v lp ;;
      stitch_tokens X pre doc_idx v' rest
  end.

(** Lines 104-107. *)
Definition flush (st : stitch_state) : result stitch_state :=
  match vars st with
  | NoDoc => Raise UnboundLocalError
  | InDoc doc_subseqs doc_labels _ =>
      Ok {| vars := vars st;
            doc_idx := doc_idx st;
            all_subseqs := append (all_subseqs st) doc_subseqs;
            all_labels := append (all_labels st) doc_labels |}
  end.

(** Body of the chunk loop, lines 60-107. *)
Definition stitch_chunk (m : Model) (X : list text) (pre : list (list text))
  (enc : ArrayEncodedOutput) (step_size : Z) (chunk_idx : Z)
  (label_seq : list label) (position_seq : list Z) (st : stitch_state)
  : result stitch_state :=
  start_of_doc <- start_of_doc_at m enc chunk_idx ;;
  end_of_doc <- end_of_doc_at m enc chunk_idx ;;
  let v := if (start_of_doc : bool) then InDoc [] [] 0 else vars st in
  let idx := if (start_of_doc : bool) then doc_idx st + 1 else doc_idx st in
  let label_seq' := window step_size start_of_doc end_of_doc label_seq in
  let position_seq' := window step_size start_of_doc end_of_doc position_seq in
  v' <- stitch_tokens X pre idx v (zip label_seq' position_seq') ;;
  let st' := {| vars := v'; doc_idx := idx;
                all_subseqs := all_subseqs st; all_labels := all_labels st |} in
  if (end_of_doc : bool) then flush st' else Ok st'.

(** [for chunk_idx, (label_seq, position_seq) in enumerate(zip(...))],
    entered at index [chunk_idx] with the pairs still to visit. *)
Fixpoint stitch_chunks (m : Model) (X : list text) (pre : list (list text))
  (enc : ArrayEncodedOutput) (step_size : Z) (chunk_idx : Z)
  (todo : list (list label * list Z)) (st : stitch_state) : result stitch_state :=
  match todo with
  | [] => Ok st
  | (label_seq, position_seq) :: rest =>
      st' <- stitch_chunk m X pre enc step_size chunk_idx label_seq position_seq st ;;
      stitch_chunks m X pre enc step_size (chunk_idx + 1) rest st'
  end.

Definition stitch_init : stitch_state :=
  {| vars := NoDoc; doc_idx := -1; all_subseqs := []; all_labels := [] |}.

(** Lines 53-107 of predict: what is handed to the format adapter. *)
Definition predict_stitch (m : Model) (X : list text) (pre : list (list text))
  (enc : ArrayEncodedOutput) (step_size : Z) (labels : list (list label))
  : result (list (list text) * list (list label)) :=
  st <- stitch_chunks m X pre enc step_size 0 (zip labels (char_locs enc)) stitch_init ;;
  Ok (all_subseqs st, all_labels st).

(** ** predict_proba: the collecting loop *)

Section Proba.

(** A per-class score as the decoder returns it; the methods only move
    these values around. *)
Variable proba : Type.

Definition token_proba : Type := (token * list (label * proba))%type.

Record proba_state : Type := {
  seq_result : option (list token_proba);
  result_ : list (list token_proba)
}.

(** Body of the token loop, lines 165-168; [seq_result] is unbound
    ([None]) until a chunk starts a document. *)
Definition collect_token (m : Model) (sr : option (list token_proba))
  (tp : token * list proba) : result (option (list token_proba)) :=
  let '(token, proba_t) := tp in
  match sr with
  | None => Raise UnboundLocalError
  | Some l => Ok (Some (append l (token, dict (zip (classes_ m) proba_t))))
  end.

Fixpoint collect_tokens (m : Model) (sr : option (list token_proba))
  (pairs : list (token * list proba)) : result (option (list token_proba)) :=
  match pairs with
  | [] => Ok sr
  | tp :: rest =>
      sr' <- collect_token m sr tp ;;
      collect_tokens m sr' rest
  end.

(** Body of the chunk loop, lines 148-173. *)
Definition collect_chunk (m : Model) (enc : ArrayEncodedOutput) (step_size : Z)
  (chunk_idx : Z) (token_seq : list token) (proba_seq : list (list proba))
  (st : proba_state) : result proba_state :=
  start_of_doc <- start_of_doc_at m enc chunk_idx ;;
  end_of_doc <- end_of_doc_at m enc chunk_idx ;;
  let sr := if (start_of_doc : bool) then Some [] else seq_result st in
  let token_seq' := window step_size start_of_doc end_of_doc token_seq in
  let proba_seq' := window step_size start_of_doc end_of_doc proba_seq in
  sr' <- collect_tokens m sr (zip token_seq' proba_seq') ;;
  if (end_of_doc : bool) then
    match sr' with
    | None => Raise UnboundLocalError
    | Some l => Ok {| seq_result := sr'; result_ := append (result_ st) l |}
    end
  else Ok {| seq_result := sr'; result_ := result_ st |}.

Fixpoint collect_chunks (m : Model) (enc : ArrayEncodedOutput) (step_size : Z)
  (chunk_idx : Z) (todo : list (list token * list (list proba)))
  (st : proba_state) : result proba_state :=
  match todo with
  | [] => Ok st
  | (token_seq, proba_seq) :: rest =>
      st' <- collect_chunk m enc step_size chunk_idx token_seq proba_seq st ;;
      collect_chunks m enc step_size (chunk_idx + 1) rest st'
  end.

Definition proba_init : proba_state := {| seq_result := None; result_ := [] |}.

(** Lines 146-175 of predict_proba. *)
Definition predict_proba_collect (m : Model) (enc : ArrayEncodedOutput)
  (step_size : Z) (batch_probas : list (list (list proba)))
  : result (list (list token_proba)) :=
  st <- collect_chunks m enc step_size 0 (zip (tokens enc) batch_probas) proba_init ;;
  Ok (result_ st).

End Proba.

Arguments seq_result {proba} _.
Arguments result_ {proba} _.
Arguments proba_init {proba}.

(** ** The two methods, over their collaborators *)

Section Methods.

Variable proba : Type.
Variable annotations : Type.

(** finetune.utils and BaseModel, outside this file.  Of the pair that
    [indico_to_finetune_sequence] returns the methods keep the first
    component, which is what the variable stands for. *)
Variable indico_to_finetune_sequence : list text -> list (list text).
Variable finetune_to_indico_sequence :
  list text -> list (list text) -> list (list label) -> bool -> annotations.
Variable _text_to_ids : list (list text) -> ArrayEncodedOutput.
Variable _predict : list (list text) -> Z -> list (list label).
Variable _predict_proba : list (list text) -> option Z -> list (list (list proba)).

(** [SequenceLabeler.predict] *)
Definition predict (m : Model) (X : list text) (max_length : option Z)
  : result annotations :=
  let doc_subseqs := indico_to_finetune_sequence X in
  let max_length := max_length_or max_length (config_max_length m) in
  let chunk_size := max_length - 2 in
  let step_size := chunk_size / 3 in
  let arr_encoded := _text_to_ids doc_subseqs in
  let labels := _predict doc_subseqs max_length in
  '(all_subseqs, all_labels) <-
     predict_stitch m X doc_subseqs arr_encoded step_size labels ;;
  Ok (finetune_to_indico_sequence X all_subseqs all_labels
        (config_subtoken_predictions m)).

(** [SequenceLabeler.predict_proba] *)
Definition predict_proba (m : Model) (X : list text) (max_length : option Z)
  : result (list (list (token_proba proba))) :=
  let doc_subseqs := indico_to_finetune_sequence X in
  let arr_encoded := _text_to_ids doc_subseqs in
  let batch_probas := _predict_proba doc_subseqs max_length in
  let max_length := max_length_or max_length (config_max_length m) in
  let chunk_size := max_length - 2 in
  let step_size := chunk_size / 3 in
  predict_proba_collect proba m arr_encoded step_size batch_probas.

End Methods.

(** ** The decode wrappers *)

Section Decode.

Variables logits matrix label_idxs label_probas decoder_state : Type.

(** finetune.utils.sequence_decode, outside this file.  Nothing in this
    file says that a call depends on its arguments only, so a call takes
    and returns whatever state the decoder has beside them. *)
Variable sequence_decode :
  logits -> option matrix -> decoder_state
  -> (label_idxs * label_probas) * decoder_state.

(** [SequenceLabeler._predict_op]; [kwargs] is the keyword dict. *)
Definition _predict_op (lg : logits) (kwargs : list (string * matrix))
  (s : decoder_state) : label_idxs * decoder_state :=
  let '((label_idxs, _), s') :=
    sequence_decode lg (dict_get kwargs "transition_matrix") s in
  (label_idxs, s').

(** [SequenceLabeler._predict_proba_op] *)
Definition _predict_proba_op (lg : logits) (kwargs : list (string * matrix))
  (s : decoder_state) : label_probas * decoder_state :=
  let '((_, label_probas), s') :=
    sequence_decode lg (dict_get kwargs "transition_matrix") s in
  (label_probas, s').

(** A caller that asks for the labels of a chunk and then for its
    probabilities, as predict followed by predict_proba does. *)
Definition decode_both (lg : logits) (kwargs : list (string * matrix))
  (s : decoder_state) : label_idxs * label_probas * decoder_state :=
  let '(label_idxs, s1) := _predict_op lg kwargs s in
  let '(label_probas, s2) := _predict_proba_op lg kwargs s1 in
  (label_idxs, label_probas, s2).

End Decode.

(** ** Reference definitions, in the words of the design *)

(** WindowSelector: the half-open range of token positions a chunk of [n]
    tokens is authoritative for. *)
Definition authoritative_range (step_size : Z) (is_first is_last : bool) (n : Z)
  : Z * Z :=
  match is_first, is_last with
  | true, true => (0, n)
  | true, false => (0, 2 * step_size)
  | false, true => (step_size, n)
  | false, false => (step_size, 2 * step_size)
  end.

(** SpanStitcher, hard-label path: a span is a character interval with
    one label.  The machine keeps the closed spans, the open span and the
    cursor (the character offset of the next unconsumed text). *)
Record span : Type := {
  sp_start : Z;
  sp_end : Z;
  sp_label : label
}.

Record machine : Type := {
  closed : list span;
  open : option span;
  cursor : Z
}.

Definition machine_reset : machine :=
  {| closed := []; open := None; cursor := 0 |}.

Definition machine_step (s : machine) (lp : label * Z) : machine :=
  let '(lab, char_location) := lp in
  if char_location =? -1 then s
  else
    let fresh := {| sp_start := cursor s; sp_end := char_location; sp_label := lab |} in
    match open s with
    | None =>
        {| closed := closed s; open := Some fresh; cursor := char_location |}
    | Some sp =>
        if String.eqb lab (sp_label sp) then
          {| closed := closed s;
             open := Some {| sp_start := sp_start sp; sp_end := char_location;
                             sp_label := sp_label sp |};
             cursor := char_location |}
        else
          {| closed := closed s ++ [sp]; open := Some fresh;
             cursor := char_location |}
    end.

Definition machine_spans (s : machine) : list span :=
  closed s ++ match open s with Some sp => [sp] | None => [] end.

(** The spans of one document, from its authoritative (label, location)
    pairs in document order. *)
Definition spans_of (pairs : list (label * Z)) : list span :=
  machine_spans (fold_left machine_step pairs machine_reset).

Definition span_text (doc : text) (sp : span) : text :=
  slice (Some (sp_start sp)) (Some (sp_end sp)) doc.

(** Spans in non-decreasing start order that do not overlap: each one
    starts no earlier than [from], where its predecessor ended. *)
Fixpoint spans_ordered (from : Z) (spans : list span) : Prop :=
  match spans with
  | [] => True
  | sp :: rest =>
      from <= sp_start sp /\ sp_start sp <= sp_end sp /\ spans_ordered (sp_end sp) rest
  end.

(** Maximal merging: no label equals its immediate predecessor's. *)
Fixpoint no_adjacent_equal (labels : list label) : Prop :=
  match labels with
  | a :: (b :: _) as rest => a <> b /\ no_adjacent_equal rest
  | _ => True
  end.

(** The char-locations that are not the padding sentinel. *)
Definition locations (pairs : list (label * Z)) : list Z :=
  filter (fun p => negb (p =? -1)) (map snd pairs).

(** Char-locations as a tokenizer gives them: end offsets that never go
    back, starting from [from]. *)
Fixpoint ascending (from : Z) (locs : list Z) : bool :=
  match locs with
  | [] => true
  | p :: rest => (from <=? p) && ascending p rest
  end.

(** ** Batches laid out document by document *)

Section Batches.

Variable proba : Type.

(** One chunk: its rows of [token_ids], [tokens] and [char_locs], and
    what the decoder returned for it. *)
Record chunk : Type := {
  ch_ids : list (list Z);
  ch_tokens : list token;
  ch_locs : list Z;
  ch_labels : list label;
  ch_probas : list (list proba)
}.

Definition chunk_head (c : chunk) : option Z :=
  match ch_ids c with
  | (id :: _) :: _ => Some id
  | _ => None
  end.

(** The chunk begins with the encoder's start marker. *)
Definition opens_doc (m : Model) (c : chunk) : bool :=
  match chunk_head c with
  | Some id => id =? encoder_start m
  | None => false
  end.

(** The chunk begins with some other token id. *)
Definition continues_doc (m : Model) (c : chunk) : bool :=
  match chunk_head c with
  | Some id => negb (id =? encoder_start m)
  | None => false
  end.

(** ChunkPlanner's layout: the chunks of a document are consecutive and
    only the first one begins with the start marker. *)
Definition doc_layout (m : Model) (g : list chunk) : bool :=
  match g with
  | [] => false
  | c :: rest => opens_doc m c && forallb (continues_doc m) rest
  end.

Definition batch_layout (m : Model) (docs : list (list chunk)) : bool :=
  forallb (doc_layout m) docs.

Definition encode (docs : list (list chunk)) : ArrayEncodedOutput :=
  {| token_ids := map ch_ids (List.concat docs);
     tokens := map ch_tokens (List.concat docs);
     char_locs := map ch_locs (List.concat docs) |}.

Definition decoded_labels (docs : list (list chunk)) : list (list label) :=
  map ch_labels (List.concat docs).

Definition decoded_probas (docs : list (list chunk)) : list (list (list proba)) :=
  map ch_probas (List.concat docs).

Definition is_nil {B : Type} (l : list B) : bool :=
  match l with [] => true | _ :: _ => false end.

(** The authoritative (label, location) pairs of a document, chunk after
    chunk; [is_first] tells whether [g] begins at the document's first
    chunk. *)
Fixpoint doc_pairs (step_size : Z) (is_first : bool) (g : list chunk)
  : list (label * Z) :=
  match g with
  | [] => []
  | c :: rest =>
      zip (window step_size is_first (is_nil rest) (ch_labels c))
          (window step_size is_first (is_nil rest) (ch_locs c))
      ++ doc_pairs step_size false rest
  end.

(** Likewise the authoritative (token, scores) pairs. *)
Fixpoint doc_token_probas (step_size : Z) (is_first : bool) (g : list chunk)
  : list (token * list proba) :=
  match g with
  | [] => []
  | c :: rest =>
      zip (window step_size is_first (is_nil rest) (ch_tokens c))
          (window step_size is_first (is_nil rest) (ch_probas c))
      ++ doc_token_probas step_size false rest
  end.

(** No chunk follows, or the next one begins another document. *)
Definition ends_doc (m : Model) (rest : list chunk) : bool :=
  match rest with
  | [] => true
  | c' :: _ => opens_doc m c'
  end.

(** What the loops of predict and predict_proba zip for a chunk. *)
Definition label_pair (c : chunk) : list label * list Z := (ch_labels c, ch_locs c).
Definition proba_pair (c : chunk) : list token * list (list proba) :=
  (ch_tokens c, ch_probas c).

(** The record predict_proba builds from a document's pairs. *)
Definition proba_record (m : Model) (pairs : list (token * list proba))
  : list (token_proba proba) :=
  map (fun tp => (fst tp, dict (zip (classes_ m) (snd tp)))) pairs.

End Batches.

Arguments ch_ids {proba} _.
Arguments ch_tokens {proba} _.
Arguments ch_locs {proba} _.
Arguments ch_labels {proba} _.
Arguments ch_probas {proba} _.
Arguments chunk_head {proba} _.
Arguments opens_doc {proba} _ _.
Arguments continues_doc {proba} _ _.
Arguments doc_layout {proba} _ _.
Arguments batch_layout {proba} _ _.
Arguments encode {proba} _.
Arguments decoded_labels {proba} _.
Arguments decoded_probas {proba} _.
Arguments doc_pairs {proba} _ _ _.
Arguments doc_token_probas {proba} _ _ _.
Arguments proba_record {proba} _ _.
Arguments ends_doc {proba} _ _.
Arguments label_pair {proba} _.
Arguments proba_pair {proba} _.

(** The token loop of predict run on one document from a fresh
    accumulator: the record stitched for that document. *)
Definition stitch_doc (doc : text) (pairs : list (label * Z))
  : list text * list label :=
  match stitch_tokens [doc] [] 0 (InDoc [] [] 0) pairs with
  | Ok (InDoc doc_subseqs doc_labels _) => (doc_subseqs, doc_labels)
  | _ => ([], [])
  end.

(** The record stitched for each document of a batch, in order. *)
Definition stitched {proba : Type} (step_size : Z) (X : list text)
  (docs : list (list (chunk proba))) : list (list text * list label) :=
  map (fun dg => stitch_doc (fst dg) (doc_pairs step_size true (snd dg)))
      (combine X docs).

(** The record collected for each document of a batch, in order. *)
Definition collected {proba : Type} (m : Model) (step_size : Z)
  (docs : list (list (chunk proba))) : list (list (token_proba proba)) :=
  map (fun g => proba_record m (doc_token_probas step_size true g)) docs.

(** ** Invariants *)

(** The span texts and the labels of the open document go in pairs. *)
Definition paired (v : doc_vars) : Prop :=
  match v with
  | NoDoc => True
  | InDoc doc_subseqs doc_labels _ => List.length doc_subseqs = List.length doc_labels
  end.

Definition in_doc (v : doc_vars) : Prop :=
  match v with
  | NoDoc => False
  | InDoc _ _ _ => True
  end.

(** The open document's texts and labels go in pairs, and so do the
    records already appended to the two batch lists. *)
Definition lockstep (st : stitch_state) : Prop :=
  paired (vars st)
  /\ Forall2 (fun s l => List.length s = List.length l)
       (all_subseqs st) (all_labels st).

(** Where the last span of a list ends ([from] if there is none). *)
Definition final_end (from : Z) (spans : list span) : Z :=
  fold_left (fun _ sp => sp_end sp) spans from.

(** Spans that abut: each one starts exactly where its predecessor
    ended, the first one at [from]. *)
Fixpoint spans_contiguous (from : Z) (spans : list span) : Prop :=
  match spans with
  | [] => True
  | sp :: rest =>
      sp_start sp = from /\ from <= sp_end sp /\ spans_contiguous (sp_end sp) rest
  end.

(** The open span is the only span when nothing is closed yet, it
    starts where the last closed one ended and ends at the cursor, and
    its label differs from the last closed one. *)
Definition machine_ok (M : machine) : Prop :=
  0 <= cursor M
  /\ spans_contiguous 0 (closed M)
  /\ no_adjacent_equal (map sp_label (machine_spans M))
  /\ match open M with
     | None => closed M = [] /\ cursor M = 0
     | Some sp =>
         sp_start sp = final_end 0 (closed M)
         /\ 0 <= sp_start sp
         /\ sp_start sp <= sp_end sp
         /\ sp_end sp = cursor M
     end.

(** ** Further definitions *)

(** [SequenceLabeler._format_for_encoding]: [[X] for X in Xs]. *)
Definition _format_for_encoding {A : Type} (Xs : list A) : list (list A) :=
  map (fun X => [X]) Xs.

(** The windows of the chunks of one document, one after the other;
    [is_first] tells whether [chunks] begins at the document's first
    chunk.  This is what either loop keeps of one per-token sequence. *)
Fixpoint doc_windows {A : Type} (step_size : Z) (is_first : bool)
  (chunks : list (list A)) : list A :=
  match chunks with
  | [] => []
  | c :: rest =>
      window step_size is_first (is_nil rest) c
      ++ doc_windows step_size false rest
  end.

(** The layout drawn in the comment of predict (lines 66-69): chunk [j]
    of a sequence begins [j] steps into it and holds [width] positions, or
    what is left of the sequence. *)
Definition chunk_at {A : Type} (step_size width : Z) (seq : list A) (j : nat)
  : list A :=
  slice (Some (Z.of_nat j * step_size)) (Some (Z.of_nat j * step_size + width)) seq.

(** The pairs of a window that the token loop of predict does not pass
    over. *)
Definition unpadded (pairs : list (label * Z)) : list (label * Z) :=
  filter (fun lp => negb (snd lp =? -1)) pairs.

(** A label sequence with each run of one label reduced to one label. *)
Fixpoint compress (labels : list label) : list label :=
  match labels with
  | a :: (b :: _) as rest =>
      if String.eqb a b then compress rest else a :: compress rest
  | _ => labels
  end.

(** ** A sample batch

    Two documents under [max_length = 8], hence a step of 2: "abcdefgh" in
    three chunks of six positions and "xy" in one chunk.  Scores are given
    in thousandths. *)
Module Sample.

Open Scope string_scope.

Definition m : Model :=
  {| encoder_start := 40478; config_max_length := 8;
     config_subtoken_predictions := false;
     classes_ := ["<PAD>"; "A"; "B"] |}.

Definition X : list text :=
  [list_ascii_of_string "abcdefgh"; list_ascii_of_string "xy"].

Definition scores (n : nat) : list (list Z) := repeat [10; 700; 290]%Z n.

Definition c1 : chunk Z :=
  {| ch_ids := [[40478; 40481]; [11; 40482]; [12; 40483]; [13; 40484];
                [14; 40485]; [15; 40486]]%Z;
     ch_tokens := ["_start_"; "a"; "b"; "c"; "d"; "e"];
     ch_locs := [-1; 1; 2; 3; 4; 5]%Z;
     ch_labels := ["<PAD>"; "A"; "A"; "B"; "B"; "B"];
     ch_probas := scores 6 |}.

Definition c2 : chunk Z :=
  {| ch_ids := [[12; 40481]; [13; 40482]; [14; 40483]; [15; 40484];
                [16; 40485]; [17; 40486]]%Z;
     ch_tokens := ["b"; "c"; "d"; "e"; "f"; "g"];
     ch_locs := [2; 3; 4; 5; 6; 7]%Z;
     ch_labels := ["A"; "B"; "B"; "B"; "A"; "A"];
     ch_probas := scores 6 |}.

Definition c3 : chunk Z :=
  {| ch_ids := [[14; 40481]; [15; 40482]; [16; 40483]; [17; 40484];
                [18; 40485]; [40480; 40486]]%Z;
     ch_tokens := ["d"; "e"; "f"; "g"; "h"; "_classify_"];
     ch_locs := [4; 5; 6; 7; 8; -1]%Z;
     ch_labels := ["B"; "B"; "B"; "A"; "A"; "<PAD>"];
     ch_probas := scores 6 |}.

Definition c4 : chunk Z :=
  {| ch_ids := [[40478; 40481]; [31; 40482]; [32; 40483]; [40480; 40484]]%Z;
     ch_tokens := ["_start_"; "x"; "y"; "_classify_"];
     ch_locs := [-1; 1; 2; -1]%Z;
     ch_labels := ["<PAD>"; "B"; "B"; "<PAD>"];
     ch_probas := scores 4 |}.

Definition docs : list (list (chunk Z)) := [[c1; c2; c3]; [c4]].

Definition pre : list (list text) := map (fun d => [d]) X.

End Sample.

(** * Facts about slices *)

Section SliceFacts.

Context {A : Type}.
Implicit Types (l : list A) (a b c : Z) (k : nat).

Lemma len_nonneg l : 0 <= len l.
Proof. unfold len. lia. Qed.

Lemma len_app l l' : len (l ++ l') = len l + len l'.
Proof. unfold len. rewrite length_app. lia. Qed.

Lemma nth_error_beyond l k : len l <= Z.of_nat k -> nth_error l k = None.
Proof. unfold len. intros H. apply nth_error_None. lia. Qed.

(** The positions kept by [firstn] after [skipn]. *)
Lemma nth_error_firstn_skipn l (m n k : nat) :
  nth_error (firstn n (skipn m l)) k
  = if (k <? n)%nat then nth_error l (m + k) else None.
Proof. rewrite nth_error_firstn, nth_error_skipn. reflexivity. Qed.

(** With bounds that do not count from the end, [l[a:b]] holds the
    positions [a <= i < b] of [l], in order. *)
Lemma nth_error_slice l a b k :
  0 <= a -> 0 <= b ->
  nth_error (slice (Some a) (Some b) l) k
  = if a + Z.of_nat k <? b then nth_error l (Z.to_nat (a + Z.of_nat k)) else None.
Proof.
  intros Ha Hb. unfold slice, slice_index.
  pose proof (len_nonneg l) as Hn.
  destruct (Z.ltb_spec a 0); [lia|]. destruct (Z.ltb_spec b 0); [lia|].
  rewrite nth_error_firstn_skipn.
  destruct (Nat.ltb_spec k (Z.to_nat (Z.min b (len l) - Z.min a (len l))));
    destruct (Z.ltb_spec (a + Z.of_nat k) b); try lia.
  - f_equal. lia.
  - symmetry. apply nth_error_beyond. lia.
  - reflexivity.
Qed.

Lemma slice_from_start l b : slice None (Some b) l = slice (Some 0) (Some b) l.
Proof.
  unfold slice, slice_index. pose proof (len_nonneg l).
  replace (Z.min 0 (len l)) with 0 by lia. reflexivity.
Qed.

Lemma slice_to_end l a : slice (Some a) None l = slice (Some a) (Some (len l)) l.
Proof.
  unfold slice, slice_index. pose proof (len_nonneg l).
  destruct (Z.ltb_spec (len l) 0); [lia|].
  replace (Z.min (len l) (len l)) with (len l) by lia. reflexivity.
Qed.

Lemma slice_whole l : slice (Some 0) (Some (len l)) l = l.
Proof.
  unfold slice, slice_index. pose proof (len_nonneg l).
  destruct (Z.ltb_spec (len l) 0); [lia|]. simpl.
  replace (Z.min (len l) (len l) - Z.min 0 (len l)) with (len l) by lia.
  replace (Z.to_nat (Z.min 0 (len l))) with 0%nat by lia.
  simpl. apply firstn_all2. unfold len. lia.
Qed.

(** Two slices that meet make one slice. *)
Lemma slice_slice_app l a b c :
  0 <= a -> a <= b -> b <= c ->
  slice (Some a) (Some b) l ++ slice (Some b) (Some c) l = slice (Some a) (Some c) l.
Proof.
  intros Ha Hab Hbc. apply nth_error_ext. intros k.
  rewrite (nth_error_slice l a c) by lia.
  destruct (Nat.ltb_spec k (List.length (slice (Some a) (Some b) l))) as [Hk|Hk].
  - rewrite nth_error_app1 by exact Hk.
    rewrite nth_error_slice by lia.
    apply nth_error_Some in Hk. rewrite nth_error_slice in Hk by lia.
    destruct (Z.ltb_spec (a + Z.of_nat k) b); [|congruence].
    destruct (Z.ltb_spec (a + Z.of_nat k) c); [reflexivity|lia].
  - rewrite nth_error_app2 by exact Hk.
    rewrite nth_error_slice by lia.
    assert (Hlen : Z.of_nat (List.length (slice (Some a) (Some b) l))
                   = Z.min b (len l) - Z.min a (len l)).
    { unfold slice, slice_index. pose proof (len_nonneg l).
      destruct (Z.ltb_spec a 0); [lia|]. destruct (Z.ltb_spec b 0); [lia|].
      rewrite length_firstn, length_skipn. unfold len in *. lia. }
    pose proof (len_nonneg l).
    destruct (Z.ltb_spec (b + Z.of_nat (k - List.length (slice (Some a) (Some b) l))) c);
      destruct (Z.ltb_spec (a + Z.of_nat k) c); try lia.
    + destruct (Z.le_gt_cases (len l) b).
      * rewrite !nth_error_beyond by lia. reflexivity.
      * f_equal. lia.
    + symmetry. apply nth_error_beyond. lia.
    + reflexivity.
Qed.

Lemma slice_empty l a : slice (Some a) (Some a) l = [].
Proof.
  unfold slice. rewrite Z.sub_diag. reflexivity.
Qed.

End SliceFacts.

(** * Window selection *)

Lemma step_size_nonneg (max_length : Z) :
  2 <= max_length -> 0 <= step_size_of max_length.
Proof.
  intros H. unfold step_size_of, chunk_size_of.
  apply Z.div_pos; lia.
Qed.

(** The window for any step that does not count from the end. *)
Lemma window_range {A : Type} (step_size : Z) (is_first is_last : bool)
  (seq : list A) (k : nat) :
  0 <= step_size ->
  nth_error (window step_size is_first is_last seq) k
  = let '(lo, hi) := authoritative_range step_size is_first is_last (len seq) in
    if lo + Z.of_nat k <? hi then nth_error seq (Z.to_nat (lo + Z.of_nat k))
    else None.
Proof.
  intros Hs. pose proof (len_nonneg seq) as Hn.
  unfold window, authoritative_range.
  destruct is_first, is_last; simpl negb; cbv iota.
  - destruct (Z.ltb_spec (0 + Z.of_nat k) (len seq)).
    + f_equal. lia.
    + apply nth_error_beyond. lia.
  - rewrite slice_from_start, nth_error_slice by lia.
    replace (step_size * 2) with (2 * step_size) by lia. reflexivity.
  - rewrite slice_to_end, nth_error_slice by lia. reflexivity.
  - rewrite nth_error_slice by lia.
    replace (step_size * 2) with (2 * step_size) by lia. reflexivity.
Qed.

(** The positions of a chunk kept by the window, for a step that is not
    negative. *)
Lemma window_positions {A : Type} (step_size : Z) (is_first is_last : bool)
  (seq : list A) (k : nat) :
  0 <= step_size ->
  nth_error (window step_size is_first is_last seq) k
  = match is_first, is_last with
    | true, true => nth_error seq k
    | true, false =>
        if Z.of_nat k <? 2 * step_size then nth_error seq k else None
    | false, true => nth_error seq (Z.to_nat step_size + k)
    | false, false =>
        if step_size + Z.of_nat k <? 2 * step_size
        then nth_error seq (Z.to_nat step_size + k) else None
    end.
Proof.
  intros Hs.
  rewrite window_range by exact Hs.
  pose proof (len_nonneg seq) as Hn.
  destruct is_first, is_last; unfold authoritative_range.
  - destruct (Z.ltb_spec (0 + Z.of_nat k) (len seq)).
    + f_equal. lia.
    + symmetry. apply nth_error_beyond. lia.
  - replace (0 + Z.of_nat k) with (Z.of_nat k) by lia.
    destruct (Z.of_nat k <? 2 * step_size); [f_equal; lia | reflexivity].
  - destruct (Z.ltb_spec (step_size + Z.of_nat k) (len seq)).
    + f_equal. lia.
    + symmetry. apply nth_error_beyond. lia.
  - destruct (step_size + Z.of_nat k <? 2 * step_size); [f_equal; lia | reflexivity].
Qed.

(** Below [max_length = 2] the step size is negative and the bounds of
    the slices count from the end of the sequence: with [max_length = 1]
    a first chunk that is not last loses its last two positions. *)
Lemma window_negative_step :
  step_size_of 1 = -1
  /\ window (step_size_of 1) true false ["t0"; "t1"; "t2"; "t3"; "t4"]%string
     = ["t0"; "t1"; "t2"]%string.
Proof. split; reflexivity. Qed.

(** * Indexing *)

Section GetitemFacts.

Context {A : Type}.
Implicit Types (l : list A) (k : nat).

Lemma getitem_nat l k :
  getitem l (Z.of_nat k) = of_option IndexError (nth_error l k).
Proof.
  unfold getitem.
  assert (E : (Z.of_nat k <? 0) = false) by (apply Z.ltb_ge; lia).
  cbv zeta. rewrite E, E, Nat2Z.id. reflexivity.
Qed.

Lemma getitem_middle l l' (x : A) : getitem (l ++ x :: l') (len l) = Ok x.
Proof.
  unfold len. rewrite getitem_nat, nth_error_app2 by lia.
  rewrite Nat.sub_diag. reflexivity.
Qed.

Lemma getitem_head l (x : A) : getitem (x :: l) 0 = Ok x.
Proof. reflexivity. Qed.

Lemma getitem_last l (x : A) : getitem (l ++ [x]) (-1) = Ok x.
Proof.
  unfold getitem, len. cbv zeta. rewrite length_app. simpl List.length.
  change (-1 <? 0) with true. cbv iota.
  destruct (Z.ltb_spec (-1 + Z.of_nat (List.length l + 1)) 0); [lia|].
  replace (Z.to_nat (-1 + Z.of_nat (List.length l + 1))) with (List.length l) by lia.
  rewrite nth_error_app2 by lia. rewrite Nat.sub_diag. reflexivity.
Qed.

Lemma getitem_last_nonempty l : l <> [] -> exists x, getitem l (-1) = Ok x.
Proof.
  intros H. destruct (exists_last H) as (l' & x & ->).
  exists x. apply getitem_last.
Qed.

Lemma length_removelast_snoc l (x : A) :
  l <> [] -> List.length (removelast l ++ [x]) = List.length l.
Proof.
  intros H. destruct (exists_last H) as (l' & y & ->).
  rewrite removelast_last, !length_app. reflexivity.
Qed.

End GetitemFacts.

(** * The token loop of predict *)

Lemma stitch_tokens_app X pre idx v (p q : list (label * Z)) :
  stitch_tokens X pre idx v (p ++ q)
  = (v' <- stitch_tokens X pre idx v p ;; stitch_tokens X pre idx v' q).
Proof.
  revert v. induction p as [|lp p IH]; intros v; simpl.
  - reflexivity.
  - destruct (stitch_token X pre idx v lp) as [v'|e]; simpl; [apply IH | reflexivity].
Qed.

(** A padding position leaves every local as it was. *)
Lemma stitch_token_sentinel X pre idx v (lab : label) :
  stitch_token X pre idx v (lab, -1) = Ok v.
Proof. reflexivity. Qed.

(** Inside a document the token step reads [X] and [doc_idx] only through
    the document's text. *)
Lemma stitch_token_local X pre idx doc s l p lp :
  getitem X idx = Ok doc ->
  stitch_token X pre idx (InDoc s l p) lp = stitch_token [doc] [] 0 (InDoc s l p) lp.
Proof.
  intros HX. destruct lp as [lab pos]. unfold stitch_token.
  destruct (pos =? -1); [reflexivity|].
  rewrite HX, getitem_head. reflexivity.
Qed.

Lemma stitch_token_stays X pre idx s l p lp v' :
  stitch_token X pre idx (InDoc s l p) lp = Ok v' -> in_doc v'.
Proof.
  destruct lp as [lab pos]. unfold stitch_token.
  destruct (pos =? -1); [intros [= <-]; exact I|].
  destruct (match s with [] => Ok true | _ :: _ => _ end) as [fresh|e]; simpl; [|discriminate].
  destruct (getitem X idx) as [doc|e]; simpl; [|discriminate].
  destruct fresh.
  - intros [= <-]. exact I.
  - destruct (extend_last s _) as [s'|e]; simpl; [|discriminate].
    intros [= <-]. exact I.
Qed.

(** With the texts and labels paired, the token step cannot fail once the
    document's text is at hand, and it keeps them paired. *)
Lemma stitch_token_total doc s l p lp :
  List.length s = List.length l ->
  exists s' l' p',
    stitch_token [doc] [] 0 (InDoc s l p) lp = Ok (InDoc s' l' p')
    /\ List.length s' = List.length l'.
Proof.
  intros Hlen. destruct lp as [lab pos]. unfold stitch_token.
  destruct (pos =? -1); [eauto|].
  rewrite getitem_head.
  destruct s as [|s0 s].
  - simpl. destruct l; [|discriminate]. do 3 eexists. split; [reflexivity|reflexivity].
  - assert (Hl : l <> []) by (destruct l; [discriminate | congruence]).
    destruct (getitem_last_nonempty l Hl) as [prev ->]. simpl.
    destruct (negb (String.eqb lab prev)).
    + do 3 eexists. split; [reflexivity|].
      unfold append. rewrite !length_app. simpl. simpl in Hlen. lia.
    + assert (Hs : s0 :: s <> []) by discriminate.
      unfold extend_last.
      destruct (getitem_last_nonempty (s0 :: s) Hs) as [cur ->]. cbn [Py.bind].
      do 3 eexists. split; [reflexivity|].
      rewrite length_removelast_snoc by exact Hs. exact Hlen.
Qed.

Lemma stitch_tokens_local X pre idx doc s l p pairs :
  getitem X idx = Ok doc ->
  stitch_tokens X pre idx (InDoc s l p) pairs
  = stitch_tokens [doc] [] 0 (InDoc s l p) pairs.
Proof.
  intros HX. revert s l p. induction pairs as [|lp pairs IH]; intros s l p; simpl.
  - reflexivity.
  - rewrite (stitch_token_local X pre idx doc) by exact HX.
    destruct (stitch_token [doc] [] 0 (InDoc s l p) lp) as [v'|e] eqn:E; simpl.
    + apply stitch_token_stays in E. destruct v'; [contradiction|]. apply IH.
    + reflexivity.
Qed.

Lemma stitch_tokens_total doc s l p pairs :
  List.length s = List.length l ->
  exists s' l' p',
    stitch_tokens [doc] [] 0 (InDoc s l p) pairs = Ok (InDoc s' l' p')
    /\ List.length s' = List.length l'.
Proof.
  revert s l p. induction pairs as [|lp pairs IH]; intros s l p Hlen; simpl.
  - eauto.
  - destruct (stitch_token_total doc s l p lp Hlen) as (s1 & l1 & p1 & -> & H1).
    simpl. apply IH. exact H1.
Qed.

(** Whatever the locals, the token step keeps texts and labels paired. *)
Lemma stitch_token_paired X pre idx v lp v' :
  paired v -> stitch_token X pre idx v lp = Ok v' -> paired v'.
Proof.
  intros Hp. destruct lp as [lab pos]. unfold stitch_token.
  destruct (pos =? -1); [intros [= <-]; exact Hp|].
  destruct v as [|s l p].
  - destruct pre; [destruct (getitem X idx)|]; discriminate.
  - destruct (match s with [] => Ok true | _ :: _ => _ end) as [fresh|e]; simpl; [|discriminate].
    destruct (getitem X idx) as [doc|e]; simpl; [|discriminate].
    simpl in Hp. destruct fresh.
    + intros [= <-]. simpl. unfold append. rewrite !length_app. simpl. lia.
    + unfold extend_last. destruct (getitem s (-1)) as [cur|e] eqn:E; simpl; [|discriminate].
      intros [= <-]. cbn [paired]. rewrite <- Hp.
      apply length_removelast_snoc. intros ->. discriminate.
Qed.

Lemma stitch_tokens_paired X pre idx v pairs v' :
  paired v -> stitch_tokens X pre idx v pairs = Ok v' -> paired v'.
Proof.
  revert v. induction pairs as [|lp pairs IH]; intros v Hp; simpl.
  - intros [= <-]. exact Hp.
  - destruct (stitch_token X pre idx v lp) as [v1|e] eqn:E; simpl; [|discriminate].
    apply IH. eapply stitch_token_paired; eauto.
Qed.

(** * Document boundaries in a laid-out batch *)

Section Boundaries.

Context {proba : Type}.
Implicit Types (c : chunk proba) (done rest : list (chunk proba)).

Lemma opens_doc_head m c : opens_doc m c = true -> chunk_head c <> None.
Proof. unfold opens_doc. destruct (chunk_head c); [discriminate | discriminate]. Qed.

Lemma continues_doc_head m c : continues_doc m c = true -> chunk_head c <> None.
Proof. unfold continues_doc. destruct (chunk_head c); [discriminate | discriminate]. Qed.

Lemma continues_not_opens m c : continues_doc m c = true -> opens_doc m c = false.
Proof.
  unfold continues_doc, opens_doc. destruct (chunk_head c); [|reflexivity].
  destruct (z =? encoder_start m); [discriminate | reflexivity].
Qed.

Lemma first_token_id_at enc done c rest :
  token_ids enc = map ch_ids (done ++ c :: rest) ->
  first_token_id enc (len done)
  = of_option IndexError (chunk_head c).
Proof.
  intros Hids. unfold first_token_id. rewrite Hids, map_app. simpl map.
  replace (len done) with (len (map (@ch_ids proba) done))
    by (unfold len; rewrite length_map; reflexivity).
  rewrite getitem_middle. cbn [Py.bind]. unfold chunk_head.
  destruct (ch_ids c) as [|row rows]; [reflexivity|].
  rewrite getitem_head. cbn [Py.bind].
  destruct row as [|id row]; reflexivity.
Qed.

Lemma start_of_doc_at_layout m enc done c rest :
  token_ids enc = map ch_ids (done ++ c :: rest) ->
  chunk_head c <> None ->
  start_of_doc_at m enc (len done) = Ok (opens_doc m c).
Proof.
  intros Hids Hc. unfold start_of_doc_at, opens_doc.
  rewrite (first_token_id_at enc done c rest Hids).
  destruct (chunk_head c); [reflexivity | contradiction].
Qed.

Lemma end_of_doc_at_layout m enc done c rest :
  token_ids enc = map ch_ids (done ++ c :: rest) ->
  List.length (char_locs enc) = List.length (done ++ c :: rest) ->
  (forall c' rest', rest = c' :: rest' -> chunk_head c' <> None) ->
  end_of_doc_at m enc (len done) = Ok (ends_doc m rest).
Proof.
  intros Hids Hlen Hrest. unfold end_of_doc_at, ends_doc.
  assert (Hl : len (char_locs enc) = len done + 1 + len rest).
  { unfold len. rewrite Hlen, length_app. simpl. lia. }
  destruct rest as [|c' rest'].
  - destruct (Z.geb_spec (len done + 1) (len (char_locs enc))) as [_|H]; [reflexivity|].
    unfold len in *. simpl in Hl. lia.
  - destruct (Z.geb_spec (len done + 1) (len (char_locs enc))) as [H|_].
    { pose proof (len_nonneg rest'). unfold len in *. simpl in Hl. lia. }
    replace (len done + 1) with (len (done ++ [c]))
      by (rewrite len_app; reflexivity).
    rewrite (first_token_id_at enc (done ++ [c]) c' rest')
      by (rewrite <- app_assoc; exact Hids).
    unfold opens_doc.
    destruct (chunk_head c') eqn:E; [reflexivity|].
    exfalso. exact (Hrest c' rest' eq_refl E).
Qed.

End Boundaries.

(** * The chunk loop of predict on a laid-out batch *)

Section StitchLayout.

Context {proba : Type}.
Variables (m : Model) (X : list text) (pre : list (list text))
          (enc : ArrayEncodedOutput) (step_size : Z).
Implicit Types (c : chunk proba) (cs done later : list (chunk proba)).

Lemma ends_doc_within cs later :
  forallb (continues_doc m) cs = true ->
  ends_doc m later = true ->
  ends_doc m (cs ++ later) = is_nil cs.
Proof.
  intros Hcs Hl. destruct cs as [|c2 cs]; [exact Hl|].
  simpl in Hcs. apply andb_prop in Hcs as [Hc2 _].
  simpl. apply continues_not_opens. exact Hc2.
Qed.

Lemma next_headed cs later :
  forallb (continues_doc m) cs = true ->
  ends_doc m later = true ->
  forall c' rest', cs ++ later = c' :: rest' -> chunk_head c' <> None.
Proof.
  intros Hcs Hl c' rest' E. destruct cs as [|c2 cs].
  - simpl in E. subst later. simpl in Hl. eapply opens_doc_head; eauto.
  - simpl in E. injection E as <- _. simpl in Hcs.
    apply andb_prop in Hcs as [Hc2 _]. eapply continues_doc_head; eauto.
Qed.

(** The chunks that continue an open document: their authoritative
    pairs go through the token loop one chunk after the other, and the
    last one flushes the document. *)
Lemma stitch_chunks_continue cs :
  forall done later st doc s l p,
    token_ids enc = map ch_ids (done ++ cs ++ later) ->
    List.length (char_locs enc) = List.length (done ++ cs ++ later) ->
    forallb (continues_doc m) cs = true ->
    ends_doc m later = true ->
    cs <> [] ->
    vars st = InDoc s l p ->
    List.length s = List.length l ->
    getitem X (doc_idx st) = Ok doc ->
    exists s' l' p',
      stitch_tokens [doc] [] 0 (InDoc s l p) (doc_pairs step_size false cs)
      = Ok (InDoc s' l' p')
      /\ stitch_chunks m X pre enc step_size (len done)
           (map label_pair (cs ++ later)) st
         = stitch_chunks m X pre enc step_size (len (done ++ cs))
             (map label_pair later)
             {| vars := InDoc s' l' p'; doc_idx := doc_idx st;
                all_subseqs := all_subseqs st ++ [s'];
                all_labels := all_labels st ++ [l'] |}.
Proof.
  induction cs as [|c cs IH]; intros done later st doc s l p Hids Hlen Hcs Hl Hne Hv Hp HX;
    [contradiction|].
  pose proof Hcs as Hcs0. simpl in Hcs. apply andb_prop in Hcs as [Hc Hcs].
  change ((c :: cs) ++ later) with (c :: (cs ++ later)) in *.
  cbn [map stitch_chunks]. unfold label_pair at 1. cbn [stitch_chunks].
  unfold stitch_chunk.
  rewrite (start_of_doc_at_layout m enc done c (cs ++ later) Hids
             (continues_doc_head m c Hc)).
  rewrite (end_of_doc_at_layout m enc done c (cs ++ later) Hids Hlen
             (next_headed cs later Hcs Hl)).
  cbn [Py.bind]. rewrite (continues_not_opens m c Hc), (ends_doc_within cs later Hcs Hl).
  cbv iota. rewrite Hv.
  rewrite (stitch_tokens_local X pre (doc_idx st) doc) by exact HX.
  cbn [doc_pairs]. rewrite stitch_tokens_app.
  destruct (stitch_tokens_total doc s l p
              (zip (window step_size false (is_nil cs) (ch_labels c))
                   (window step_size false (is_nil cs) (ch_locs c))) Hp)
    as (s1 & l1 & p1 & E1 & Hp1).
  rewrite E1. cbn [Py.bind].
  destruct cs as [|c2 cs].
  - cbn [is_nil doc_pairs stitch_tokens app]. unfold flush. cbn [vars Py.bind doc_idx all_subseqs all_labels].
    exists s1, l1, p1. split; [reflexivity|].
    rewrite len_app. reflexivity.
  - cbn [is_nil Py.bind].
    destruct (IH (done ++ [c]) later
                {| vars := InDoc s1 l1 p1; doc_idx := doc_idx st;
                   all_subseqs := all_subseqs st; all_labels := all_labels st |}
                doc s1 l1 p1)
      as (s' & l' & p' & E' & Hrun).
    + rewrite <- app_assoc. exact Hids.
    + rewrite <- app_assoc. exact Hlen.
    + exact Hcs.
    + exact Hl.
    + discriminate.
    + reflexivity.
    + exact Hp1.
    + exact HX.
    + exists s', l', p'. split; [exact E'|].
      rewrite len_app in Hrun. change (len [c]) with 1 in Hrun.
      rewrite <- app_assoc in Hrun. exact Hrun.
Qed.

Lemma stitch_doc_eq doc pairs s l p :
  stitch_tokens [doc] [] 0 (InDoc [] [] 0) pairs = Ok (InDoc s l p) ->
  stitch_doc doc pairs = (s, l).
Proof. intros E. unfold stitch_doc. rewrite E. reflexivity. Qed.

(** One whole document: its first chunk resets the accumulator and
    moves to the next text; the document's record is appended when its
    last chunk has been seen. *)
Lemma stitch_chunks_doc c0 cs :
  forall done later st doc,
    token_ids enc = map ch_ids (done ++ (c0 :: cs) ++ later) ->
    List.length (char_locs enc) = List.length (done ++ (c0 :: cs) ++ later) ->
    doc_layout m (c0 :: cs) = true ->
    ends_doc m later = true ->
    getitem X (doc_idx st + 1) = Ok doc ->
    exists v',
      stitch_chunks m X pre enc step_size (len done)
        (map label_pair ((c0 :: cs) ++ later)) st
      = stitch_chunks m X pre enc step_size (len (done ++ c0 :: cs))
          (map label_pair later)
          {| vars := v'; doc_idx := doc_idx st + 1;
             all_subseqs :=
               all_subseqs st
               ++ [fst (stitch_doc doc (doc_pairs step_size true (c0 :: cs)))];
             all_labels :=
               all_labels st
               ++ [snd (stitch_doc doc (doc_pairs step_size true (c0 :: cs)))] |}.
Proof.
  intros done later st doc Hids Hlen Hlay Hl HX.
  simpl in Hlay. apply andb_prop in Hlay as [Hc0 Hcs].
  change ((c0 :: cs) ++ later) with (c0 :: (cs ++ later)) in *.
  cbn [map stitch_chunks]. unfold label_pair at 1. cbn [stitch_chunks].
  unfold stitch_chunk.
  rewrite (start_of_doc_at_layout m enc done c0 (cs ++ later) Hids
             (opens_doc_head m c0 Hc0)).
  rewrite (end_of_doc_at_layout m enc done c0 (cs ++ later) Hids Hlen
             (next_headed cs later Hcs Hl)).
  cbn [Py.bind]. rewrite Hc0, (ends_doc_within cs later Hcs Hl). cbv iota.
  rewrite (stitch_tokens_local X pre (doc_idx st + 1) doc) by exact HX.
  destruct (stitch_tokens_total doc [] [] 0
              (zip (window step_size true (is_nil cs) (ch_labels c0))
                   (window step_size true (is_nil cs) (ch_locs c0))) eq_refl)
    as (s1 & l1 & p1 & E1 & Hp1).
  rewrite E1. cbn [Py.bind].
  destruct cs as [|c2 cs].
  - cbn [is_nil app]. unfold flush. cbn [vars Py.bind doc_idx all_subseqs all_labels].
    exists (InDoc s1 l1 p1).
    rewrite (stitch_doc_eq doc (doc_pairs step_size true [c0]) s1 l1 p1).
    + rewrite len_app. reflexivity.
    + cbn [doc_pairs is_nil]. rewrite app_nil_r. exact E1.
  - cbn [is_nil Py.bind].
    destruct (stitch_chunks_continue (c2 :: cs) (done ++ [c0]) later
                {| vars := InDoc s1 l1 p1; doc_idx := doc_idx st + 1;
                   all_subseqs := all_subseqs st; all_labels := all_labels st |}
                doc s1 l1 p1)
      as (s' & l' & p' & E' & Hrun).
    + rewrite <- app_assoc. exact Hids.
    + rewrite <- app_assoc. exact Hlen.
    + exact Hcs.
    + exact Hl.
    + discriminate.
    + reflexivity.
    + exact Hp1.
    + exact HX.
    + exists (InDoc s' l' p').
      rewrite (stitch_doc_eq doc (doc_pairs step_size true (c0 :: c2 :: cs)) s' l' p').
      * rewrite len_app in Hrun. change (len [c0]) with 1 in Hrun.
        rewrite <- app_assoc in Hrun. exact Hrun.
      * change (doc_pairs step_size true (c0 :: c2 :: cs))
          with (zip (window step_size true false (ch_labels c0))
                    (window step_size true false (ch_locs c0))
                ++ doc_pairs step_size false (c2 :: cs)).
        rewrite stitch_tokens_app. cbn [is_nil] in E1. rewrite E1. exact E'.
Qed.

Lemma ends_doc_batch (docs : list (list (chunk proba))) :
  batch_layout m docs = true -> ends_doc m (List.concat docs) = true.
Proof.
  destruct docs as [|g docs]; [reflexivity|].
  simpl. intros H. apply andb_prop in H as [Hg _].
  destruct g as [|c0 cs]; [discriminate|].
  simpl in Hg. apply andb_prop in Hg as [Hc0 _]. exact Hc0.
Qed.

Lemma stitch_chunks_batch (docs : list (list (chunk proba))) :
  forall done Xdone Xs st,
    token_ids enc = map ch_ids (done ++ List.concat docs) ->
    List.length (char_locs enc) = List.length (done ++ List.concat docs) ->
    batch_layout m docs = true ->
    X = Xdone ++ Xs ->
    List.length Xs = List.length docs ->
    doc_idx st = len Xdone - 1 ->
    exists v' idx',
      stitch_chunks m X pre enc step_size (len done)
        (map label_pair (List.concat docs)) st
      = Ok {| vars := v'; doc_idx := idx';
              all_subseqs := all_subseqs st ++ map fst (stitched step_size Xs docs);
              all_labels := all_labels st ++ map snd (stitched step_size Xs docs) |}.
Proof.
  induction docs as [|g docs IH]; intros done Xdone Xs st Hids Hlen Hlay HX HXs Hidx.
  - destruct Xs; [|discriminate]. simpl. exists (vars st), (doc_idx st).
    rewrite !app_nil_r. destruct st; reflexivity.
  - destruct Xs as [|doc Xs]; [discriminate|].
    simpl in Hlay. apply andb_prop in Hlay as [Hg Hdocs].
    destruct g as [|c0 cs]; [discriminate|].
    cbn [List.concat] in *.
    destruct (stitch_chunks_doc c0 cs done (List.concat docs) st doc Hids Hlen Hg
                (ends_doc_batch docs Hdocs)) as (v1 & Hrun).
    { rewrite Hidx, HX.
      replace (len Xdone - 1 + 1) with (len Xdone) by lia.
      apply getitem_middle. }
    rewrite Hrun.
    destruct (IH (done ++ c0 :: cs) (Xdone ++ [doc]) Xs
                {| vars := v1; doc_idx := doc_idx st + 1;
                   all_subseqs :=
                     all_subseqs st
                     ++ [fst (stitch_doc doc (doc_pairs step_size true (c0 :: cs)))];
                   all_labels :=
                     all_labels st
                     ++ [snd (stitch_doc doc (doc_pairs step_size true (c0 :: cs)))] |})
      as (v' & idx' & Hrest).
    + rewrite <- app_assoc. exact Hids.
    + rewrite <- app_assoc. exact Hlen.
    + exact Hdocs.
    + rewrite <- app_assoc. exact HX.
    + simpl in HXs. lia.
    + cbn [doc_idx]. rewrite Hidx, len_app. change (len [doc]) with 1. lia.
    + exists v', idx'. rewrite Hrest. cbn [all_subseqs all_labels].
      unfold stitched. cbn [combine map fst snd].
      rewrite <- !app_assoc. reflexivity.
Qed.

End StitchLayout.

Lemma zip_map {A B C : Type} (f : A -> B) (g : A -> C) (l : list A) :
  zip (map f l) (map g l) = map (fun a => (f a, g a)) l.
Proof. unfold zip. induction l; simpl; congruence. Qed.

(** On a batch laid out document by document, with one text per document,
    the loop of predict completes and hands over exactly one stitched
    record per document, in order. *)
Lemma predict_stitch_layout {proba : Type} m X pre step_size
  (docs : list (list (chunk proba))) :
  batch_layout m docs = true ->
  List.length X = List.length docs ->
  predict_stitch m X pre (encode docs) step_size (decoded_labels docs)
  = Ok (map fst (stitched step_size X docs), map snd (stitched step_size X docs)).
Proof.
  intros Hlay HX. unfold predict_stitch, decoded_labels.
  cbn [encode char_locs]. rewrite zip_map.
  destruct (stitch_chunks_batch m X pre (encode docs) step_size docs [] [] X stitch_init)
    as (v' & idx' & Hrun); try reflexivity; try assumption.
  - cbn [encode char_locs]. rewrite length_map. reflexivity.
  - change (len (@nil (chunk proba))) with 0 in Hrun.
    change (map (fun a => (ch_labels a, ch_locs a)) (List.concat docs))
      with (map label_pair (List.concat docs)).
    rewrite Hrun. reflexivity.
Qed.

(** * The chunk loop of predict_proba on a laid-out batch *)

Section CollectLayout.

Context {proba : Type}.
Variables (m : Model) (enc : ArrayEncodedOutput) (step_size : Z).
Implicit Types (c : chunk proba) (cs done later : list (chunk proba)).

Lemma collect_tokens_some l (pairs : list (token * list proba)) :
  collect_tokens proba m (Some l) pairs = Ok (Some (l ++ proba_record m pairs)).
Proof.
  revert l. induction pairs as [|[t p] pairs IH]; intros l.
  - simpl. rewrite app_nil_r. reflexivity.
  - cbn [collect_tokens collect_token Py.bind]. rewrite IH.
    unfold append, proba_record. cbn [map fst snd]. rewrite <- app_assoc. reflexivity.
Qed.

Lemma proba_record_app (p q : list (token * list proba)) :
  proba_record m (p ++ q) = proba_record m p ++ proba_record m q.
Proof. unfold proba_record. apply map_app. Qed.

Lemma collect_chunks_continue cs :
  forall done later st l,
    token_ids enc = map ch_ids (done ++ cs ++ later) ->
    List.length (char_locs enc) = List.length (done ++ cs ++ later) ->
    forallb (continues_doc m) cs = true ->
    ends_doc m later = true ->
    cs <> [] ->
    seq_result st = Some l ->
    collect_chunks proba m enc step_size (len done)
      (map proba_pair (cs ++ later)) st
    = collect_chunks proba m enc step_size (len (done ++ cs))
        (map proba_pair later)
        {| seq_result :=
             Some (l ++ proba_record m (doc_token_probas step_size false cs));
           result_ :=
             result_ st
             ++ [l ++ proba_record m (doc_token_probas step_size false cs)] |}.
Proof.
  induction cs as [|c cs IH]; intros done later st l Hids Hlen Hcs Hl Hne Hv;
    [contradiction|].
  simpl in Hcs. apply andb_prop in Hcs as [Hc Hcs].
  change ((c :: cs) ++ later) with (c :: (cs ++ later)) in *.
  cbn [map collect_chunks]. unfold proba_pair at 1. cbn [collect_chunks].
  unfold collect_chunk.
  rewrite (start_of_doc_at_layout m enc done c (cs ++ later) Hids
             (continues_doc_head m c Hc)).
  rewrite (end_of_doc_at_layout m enc done c (cs ++ later) Hids Hlen
             (next_headed m cs later Hcs Hl)).
  cbn [Py.bind]. rewrite (continues_not_opens m c Hc), (ends_doc_within m cs later Hcs Hl).
  cbv iota. rewrite Hv, collect_tokens_some. cbn [Py.bind].
  cbn [doc_token_probas]. rewrite proba_record_app, app_assoc.
  destruct cs as [|c2 cs].
  - cbn [is_nil doc_token_probas app Py.bind]. unfold proba_record at 3 5.
    cbn [map]. rewrite !app_nil_r, len_app. reflexivity.
  - cbn [is_nil Py.bind].
    replace (len done + 1) with (len (done ++ [c])) by (rewrite len_app; reflexivity).
    rewrite (IH (done ++ [c]) later _
               (l ++ proba_record m (zip (window step_size false false (ch_tokens c))
                                         (window step_size false false (ch_probas c)))));
      try assumption.
    + rewrite <- app_assoc. reflexivity.
    + rewrite <- app_assoc. exact Hids.
    + rewrite <- app_assoc. exact Hlen.
    + discriminate.
    + reflexivity.
Qed.

Lemma collect_chunks_doc c0 cs :
  forall done later st,
    token_ids enc = map ch_ids (done ++ (c0 :: cs) ++ later) ->
    List.length (char_locs enc) = List.length (done ++ (c0 :: cs) ++ later) ->
    doc_layout m (c0 :: cs) = true ->
    ends_doc m later = true ->
    exists sr',
      collect_chunks proba m enc step_size (len done)
        (map proba_pair ((c0 :: cs) ++ later)) st
      = collect_chunks proba m enc step_size (len (done ++ c0 :: cs))
          (map proba_pair later)
          {| seq_result := sr';
             result_ :=
               result_ st
               ++ [proba_record m (doc_token_probas step_size true (c0 :: cs))] |}.
Proof.
  intros done later st Hids Hlen Hlay Hl.
  simpl in Hlay. apply andb_prop in Hlay as [Hc0 Hcs].
  change ((c0 :: cs) ++ later) with (c0 :: (cs ++ later)) in *.
  cbn [map collect_chunks]. unfold proba_pair at 1. cbn [collect_chunks].
  unfold collect_chunk.
  rewrite (start_of_doc_at_layout m enc done c0 (cs ++ later) Hids
             (opens_doc_head m c0 Hc0)).
  rewrite (end_of_doc_at_layout m enc done c0 (cs ++ later) Hids Hlen
             (next_headed m cs later Hcs Hl)).
  cbn [Py.bind]. rewrite Hc0, (ends_doc_within m cs later Hcs Hl). cbv iota.
  rewrite collect_tokens_some. cbn [Py.bind app].
  cbn [doc_token_probas]. rewrite proba_record_app.
  destruct cs as [|c2 cs].
  - cbn [is_nil doc_token_probas app Py.bind]. unfold proba_record at 3.
    cbn [map]. rewrite !app_nil_r, len_app. eexists. reflexivity.
  - cbn [is_nil Py.bind].
    replace (len done + 1) with (len (done ++ [c0])) by (rewrite len_app; reflexivity).
    rewrite (collect_chunks_continue (c2 :: cs) (done ++ [c0]) later _
               (proba_record m (zip (window step_size true false (ch_tokens c0))
                                    (window step_size true false (ch_probas c0)))));
      try assumption.
    + rewrite <- app_assoc. cbn [result_]. eexists. reflexivity.
    + rewrite <- app_assoc. exact Hids.
    + rewrite <- app_assoc. exact Hlen.
    + discriminate.
    + reflexivity.
Qed.

Lemma collect_chunks_batch (docs : list (list (chunk proba))) :
  forall done st,
    token_ids enc = map ch_ids (done ++ List.concat docs) ->
    List.length (char_locs enc) = List.length (done ++ List.concat docs) ->
    batch_layout m docs = true ->
    exists sr',
      collect_chunks proba m enc step_size (len done)
        (map proba_pair (List.concat docs)) st
      = Ok {| seq_result := sr';
              result_ := result_ st ++ collected m step_size docs |}.
Proof.
  induction docs as [|g docs IH]; intros done st Hids Hlen Hlay.
  - simpl. exists (seq_result st). unfold collected. simpl.
    rewrite app_nil_r. destruct st; reflexivity.
  - simpl in Hlay. apply andb_prop in Hlay as [Hg Hdocs].
    destruct g as [|c0 cs]; [discriminate|].
    cbn [List.concat] in *.
    destruct (collect_chunks_doc c0 cs done (List.concat docs) st Hids Hlen Hg
                (ends_doc_batch m docs Hdocs)) as (sr1 & Hrun).
    rewrite Hrun.
    destruct (IH (done ++ c0 :: cs)
                {| seq_result := sr1;
                   result_ :=
                     result_ st
                     ++ [proba_record m (doc_token_probas step_size true (c0 :: cs))] |})
      as (sr' & Hrest).
    + rewrite <- app_assoc. exact Hids.
    + rewrite <- app_assoc. exact Hlen.
    + exact Hdocs.
    + exists sr'. rewrite Hrest. cbn [result_]. unfold collected. cbn [map].
      rewrite <- app_assoc. reflexivity.
Qed.

End CollectLayout.

(** On a batch laid out document by document the loop of predict_proba
    completes with exactly one record per document, in order. *)
Lemma predict_proba_collect_layout {proba : Type} m step_size
  (docs : list (list (chunk proba))) :
  batch_layout m docs = true ->
  predict_proba_collect proba m (encode docs) step_size (decoded_probas docs)
  = Ok (collected m step_size docs).
Proof.
  intros Hlay. unfold predict_proba_collect, decoded_probas.
  cbn [encode tokens]. rewrite zip_map.
  destruct (collect_chunks_batch m (encode docs) step_size docs [] proba_init)
    as (sr' & Hrun); try reflexivity; try assumption.
  - cbn [encode char_locs]. rewrite length_map. reflexivity.
  - change (len (@nil (chunk proba))) with 0 in Hrun.
    change (map (fun a => (ch_tokens a, ch_probas a)) (List.concat docs))
      with (map proba_pair (List.concat docs)).
    rewrite Hrun. reflexivity.
Qed.

(** * The span machine *)

Section Machine.

Implicit Types (M : machine) (sp : span) (spans : list span)
               (pairs : list (label * Z)).

Lemma final_end_snoc from spans sp : final_end from (spans ++ [sp]) = sp_end sp.
Proof. unfold final_end. rewrite fold_left_app. reflexivity. Qed.

Lemma spans_ordered_app from (a b : list span) :
  spans_ordered from (a ++ b)
  <-> spans_ordered from a /\ spans_ordered (final_end from a) b.
Proof.
  revert from. induction a as [|sp a IH]; intros from; simpl.
  - tauto.
  - rewrite IH. unfold final_end. simpl. tauto.
Qed.

Lemma no_adjacent_equal_snoc (labels : list label) (a b : label) :
  no_adjacent_equal (labels ++ [a]) -> a <> b ->
  no_adjacent_equal ((labels ++ [a]) ++ [b]).
Proof.
  induction labels as [|x labels IH]; intros H Hab.
  - simpl. auto.
  - destruct labels as [|y labels].
    + simpl in *. tauto.
    + change (no_adjacent_equal (x :: (y :: labels) ++ [a])) in H.
      change (x <> y /\ no_adjacent_equal (((y :: labels) ++ [a]) ++ [b])).
      destruct H as [Hxy H]. split; [exact Hxy|]. apply IH; assumption.
Qed.

Lemma spans_contiguous_app from (a b : list span) :
  spans_contiguous from (a ++ b)
  <-> spans_contiguous from a /\ spans_contiguous (final_end from a) b.
Proof.
  revert from. induction a as [|sp a IH]; intros from; simpl.
  - tauto.
  - rewrite IH. unfold final_end. simpl. tauto.
Qed.

Lemma spans_contiguous_ordered from spans :
  spans_contiguous from spans -> spans_ordered from spans.
Proof.
  revert from. induction spans as [|sp spans IH]; intros from; simpl; [tauto|].
  intros (H1 & H2 & H3). repeat split; [lia | lia | apply IH; exact H3].
Qed.

Lemma final_end_ge from spans :
  spans_contiguous from spans -> from <= final_end from spans.
Proof.
  revert from. induction spans as [|sp spans IH]; intros from; simpl.
  - unfold final_end. simpl. lia.
  - intros (H1 & H2 & H3). apply IH in H3. unfold final_end in *. simpl. lia.
Qed.

Lemma machine_reset_ok : machine_ok machine_reset.
Proof. unfold machine_ok, machine_reset; simpl. repeat split; lia. Qed.

(** Whether the open span is kept or a new one is opened, the labels
    of adjacent spans stay different. *)
Lemma machine_step_labels M lp :
  (open M = None -> closed M = []) ->
  no_adjacent_equal (map sp_label (machine_spans M)) ->
  no_adjacent_equal (map sp_label (machine_spans (machine_step M lp)))
  /\ (open (machine_step M lp) = None -> closed (machine_step M lp) = []).
Proof.
  intros Hc Hn. destruct lp as [lab pos]. unfold machine_step.
  destruct (pos =? -1); [tauto|].
  destruct (open M) as [sp|] eqn:Eo.
  - destruct (String.eqb_spec lab (sp_label sp)) as [E|E].
    + unfold machine_spans in *. rewrite Eo in Hn. cbn [closed open].
      rewrite map_app in *. cbn [map sp_label] in *. split; [exact Hn | discriminate].
    + unfold machine_spans in *. rewrite Eo in Hn. cbn [closed open].
      rewrite !map_app in *. cbn [map sp_label] in *.
      split; [|discriminate].
      apply no_adjacent_equal_snoc; [exact Hn | congruence].
  - unfold machine_spans. cbn [closed open]. rewrite (Hc eq_refl).
    simpl. split; [exact I | discriminate].
Qed.

Lemma machine_step_none M lp :
  (open M = None -> closed M = []) ->
  open (machine_step M lp) = None -> closed (machine_step M lp) = [].
Proof.
  intros Hc. destruct lp as [lab pos]. unfold machine_step.
  destruct (pos =? -1); [exact Hc|].
  destruct (open M) as [sp|]; [destruct (String.eqb lab (sp_label sp))|];
    discriminate.
Qed.

Lemma machine_ok_none M : machine_ok M -> open M = None -> closed M = [].
Proof. intros (_ & _ & _ & Hopen) E. rewrite E in Hopen. apply Hopen. Qed.

Lemma machine_step_ok M lab pos :
  machine_ok M -> (pos = -1 \/ cursor M <= pos) ->
  machine_ok (machine_step M (lab, pos)).
Proof.
  intros HM Hpos. destruct (Z.eq_dec pos (-1)) as [->|Hne]; [exact HM|].
  destruct Hpos as [Hpos|Hpos]; [contradiction|].
  pose proof (machine_ok_none M HM) as Hnone.
  destruct HM as (Hc & Ho & Hn & Hopen).
  destruct (machine_step_labels M (lab, pos) Hnone Hn) as [Hn' _].
  revert Hn'. unfold machine_step.
  destruct (Z.eqb_spec pos (-1)) as [E1|_]; [contradiction|].
  destruct (open M) as [sp|].
  - destruct Hopen as (H1 & H2 & H3 & H4).
    destruct (String.eqb lab (sp_label sp)); intros Hn'; unfold machine_ok;
      cbn [closed open cursor sp_start sp_end].
    + repeat split; try assumption; lia.
    + rewrite final_end_snoc. repeat split; try assumption; try lia.
      apply spans_contiguous_app. split; [exact Ho|]. simpl. repeat split; lia.
  - intros Hn'. unfold machine_ok. cbn [closed open cursor sp_start sp_end].
    destruct Hopen as [Hcl Hcur]. rewrite Hcl. unfold final_end. simpl.
    repeat split; try assumption; try lia.
Qed.

Lemma locations_cons_sentinel lab pairs :
  locations ((lab, -1) :: pairs) = locations pairs.
Proof. reflexivity. Qed.

Lemma locations_cons lab pos pairs :
  pos <> -1 -> locations ((lab, pos) :: pairs) = pos :: locations pairs.
Proof.
  intros H. unfold locations. cbn [map snd filter].
  destruct (Z.eqb_spec pos (-1)); [contradiction | reflexivity].
Qed.

Lemma machine_step_cursor M lab pos :
  pos <> -1 -> cursor (machine_step M (lab, pos)) = pos.
Proof.
  intros H. unfold machine_step.
  destruct (Z.eqb_spec pos (-1)); [contradiction|].
  destruct (open M) as [sp|]; [destruct (String.eqb lab (sp_label sp))|]; reflexivity.
Qed.

Lemma machine_run_ok pairs :
  forall M,
    machine_ok M -> ascending (cursor M) (locations pairs) = true ->
    machine_ok (fold_left machine_step pairs M).
Proof.
  induction pairs as [|[lab pos] pairs IH]; intros M HM Hasc; [exact HM|].
  cbn [fold_left]. destruct (Z.eq_dec pos (-1)) as [->|Hne].
  - apply IH; [apply machine_step_ok; auto | exact Hasc].
  - rewrite locations_cons in Hasc by exact Hne. simpl in Hasc.
    apply andb_prop in Hasc as [Hle Hasc]. apply Z.leb_le in Hle.
    apply IH; [apply machine_step_ok; auto|].
    rewrite machine_step_cursor by exact Hne. exact Hasc.
Qed.

Lemma machine_run_labels pairs :
  forall M,
    (open M = None -> closed M = []) ->
    no_adjacent_equal (map sp_label (machine_spans M)) ->
    no_adjacent_equal (map sp_label (machine_spans (fold_left machine_step pairs M))).
Proof.
  induction pairs as [|lp pairs IH]; intros M Hc Hn; [exact Hn|].
  cbn [fold_left]. destruct (machine_step_labels M lp Hc Hn) as [Hn' Hc'].
  apply IH; assumption.
Qed.

(** The spans of a document never repeat a label from one span to the
    next. *)
Lemma spans_of_labels pairs :
  no_adjacent_equal (map sp_label (spans_of pairs)).
Proof.
  unfold spans_of. apply machine_run_labels; [reflexivity | exact I].
Qed.

Lemma machine_ok_contiguous M :
  machine_ok M ->
  spans_contiguous 0 (machine_spans M)
  /\ final_end 0 (machine_spans M) = cursor M.
Proof.
  intros (Hc & Ho & _ & Hopen). unfold machine_spans.
  destruct (open M) as [sp|].
  - rewrite final_end_snoc. split; [|tauto].
    apply spans_contiguous_app. split; [exact Ho|]. simpl. intuition lia.
  - destruct Hopen as [-> ->]. simpl. split; [exact I | reflexivity].
Qed.

Lemma machine_ok_ordered M : machine_ok M -> spans_ordered 0 (machine_spans M).
Proof.
  intros HM. apply spans_contiguous_ordered, machine_ok_contiguous, HM.
Qed.

Lemma last_cons_default (z : Z) (l : list Z) (a b : Z) :
  last (z :: l) a = last (z :: l) b.
Proof.
  revert z. induction l as [|y l IH]; intros z; [reflexivity|].
  change (last (y :: l) a = last (y :: l) b). apply IH.
Qed.

Lemma machine_run_cursor pairs :
  forall M, cursor (fold_left machine_step pairs M)
            = last (locations pairs) (cursor M).
Proof.
  induction pairs as [|[lab pos] pairs IH]; intros M; [reflexivity|].
  cbn [fold_left]. rewrite IH. destruct (Z.eq_dec pos (-1)) as [->|Hne].
  - reflexivity.
  - rewrite locations_cons, machine_step_cursor by exact Hne.
    destruct (locations pairs) as [|z l]; [reflexivity|].
    change (last (pos :: z :: l) (cursor M)) with (last (z :: l) (cursor M)).
    apply last_cons_default.
Qed.

(** The texts of spans that abut make up one slice of the document. *)
Lemma concat_span_texts (doc : text) spans :
  forall from,
    0 <= from -> spans_contiguous from spans ->
    List.concat (map (span_text doc) spans)
    = slice (Some from) (Some (final_end from spans)) doc.
Proof.
  induction spans as [|sp spans IH]; intros from Hf Hc.
  - unfold final_end. simpl. symmetry. apply slice_empty.
  - simpl in Hc. destruct Hc as (H1 & H2 & H3).
    cbn [map List.concat]. rewrite (IH (sp_end sp)) by (try lia; exact H3).
    unfold span_text. rewrite H1.
    change (final_end from (sp :: spans)) with (final_end (sp_end sp) spans).
    apply slice_slice_app; [lia | lia | apply final_end_ge; exact H3].
Qed.

(** With char-locations that never go back, the spans of a document
    are in start order and do not overlap. *)
Lemma spans_of_ordered pairs :
  ascending 0 (locations pairs) = true -> spans_ordered 0 (spans_of pairs).
Proof.
  intros H. unfold spans_of. apply machine_ok_ordered.
  apply machine_run_ok; [exact machine_reset_ok | exact H].
Qed.

End Machine.

(** * The token loop of predict follows the span machine *)

Section Refinement.

Variable doc : text.
Implicit Types (M : machine) (pairs : list (label * Z)).

Lemma match_snoc {B C : Type} (s0 : list B) (x : B) (a b : C) :
  match s0 ++ [x] with [] => a | _ :: _ => b end = b.
Proof. destruct s0; reflexivity. Qed.

Lemma extend_last_snoc (s : list text) (cur piece : text) :
  extend_last (s ++ [cur]) piece = Ok (s ++ [cur ++ piece]).
Proof.
  unfold extend_last. rewrite getitem_last. cbn [Py.bind].
  rewrite removelast_last. reflexivity.
Qed.

(** One token: the labels and the cursor of the code are those of the
    machine; the texts are the slices of the machine's spans as long as
    the char-locations do not go back. *)
Lemma stitch_token_tracks M s l p lab pos :
  (open M = None -> closed M = []) ->
  l = map sp_label (machine_spans M) ->
  List.length s = List.length l ->
  p = cursor M ->
  let M' := machine_step M (lab, pos) in
  exists s',
    stitch_token [doc] [] 0 (InDoc s l p) (lab, pos)
    = Ok (InDoc s' (map sp_label (machine_spans M')) (cursor M'))
    /\ List.length s' = List.length (map sp_label (machine_spans M'))
    /\ (machine_ok M -> pos = -1 \/ cursor M <= pos ->
        s = map (span_text doc) (machine_spans M) ->
        s' = map (span_text doc) (machine_spans M')).
Proof.
  intros Hnone Hl Hlen Hp M'. subst M'. unfold stitch_token, machine_step.
  destruct (Z.eqb_spec pos (-1)) as [E|E].
  - exists s. subst l p. repeat split; auto.
  - rewrite getitem_head. unfold machine_spans in *.
    destruct (open M) as [sp|] eqn:Eo.
    + rewrite map_app in Hl. cbn [map] in Hl.
      assert (Hs : s <> []).
      { intros ->. subst l. rewrite length_app in Hlen. simpl in Hlen. lia. }
      destruct (exists_last Hs) as (s0 & cur & ->).
      rewrite match_snoc.
      assert (Hg : getitem l (-1) = Ok (sp_label sp))
        by (rewrite Hl; apply getitem_last).
      rewrite Hg. cbn [Py.bind].
      destruct (String.eqb lab (sp_label sp)) eqn:El; cbn [negb closed open cursor].
      * rewrite extend_last_snoc. cbn [Py.bind].
        exists (s0 ++ [cur ++ slice (Some p) (Some pos) doc]).
        rewrite map_app. cbn [map sp_label]. rewrite <- Hl.
        split; [reflexivity|]. split.
        { rewrite <- Hlen, !length_app. reflexivity. }
        intros HM Hpos Hs0. destruct Hpos as [Hpos|Hpos]; [contradiction|].
        destruct HM as (Hc & _ & _ & Hopen). rewrite Eo in Hopen.
        destruct Hopen as (_ & H2 & H3 & H4).
        rewrite map_app in Hs0. cbn [map] in Hs0.
        apply app_inj_tail in Hs0 as [-> ->].
        rewrite map_app. cbn [map]. f_equal. f_equal.
        unfold span_text. cbn [sp_start sp_end]. subst p. rewrite <- H4.
        apply (f_equal (fun x => [x])). apply slice_slice_app; lia.
      * exists (append (s0 ++ [cur]) (slice (Some p) (Some pos) doc)).
        unfold append. rewrite !map_app. cbn [map sp_label].
        rewrite <- Hl. split; [reflexivity|]. split.
        { rewrite length_app, Hlen, (length_app l). reflexivity. }
        intros _ _ Hs0. rewrite Hs0. unfold span_text at 4. cbn [sp_start sp_end].
        subst p. reflexivity.
    + rewrite (Hnone eq_refl) in *. cbn [app map] in *. subst l.
      destruct s; [|discriminate]. cbn [Py.bind closed open cursor app map sp_label].
      eexists. split; [reflexivity|]. split; [reflexivity|].
      intros _ _ _. unfold span_text. cbn [sp_start sp_end]. subst p. reflexivity.
Qed.

Lemma stitch_tokens_tracks pairs :
  forall M s l p,
    (open M = None -> closed M = []) ->
    l = map sp_label (machine_spans M) ->
    List.length s = List.length l ->
    p = cursor M ->
    let M' := fold_left machine_step pairs M in
    exists s',
      stitch_tokens [doc] [] 0 (InDoc s l p) pairs
      = Ok (InDoc s' (map sp_label (machine_spans M')) (cursor M'))
      /\ (machine_ok M -> ascending (cursor M) (locations pairs) = true ->
          s = map (span_text doc) (machine_spans M) ->
          s' = map (span_text doc) (machine_spans M')).
Proof.
  induction pairs as [|[lab pos] pairs IH]; intros M s l p Hnone Hl Hlen Hp.
  - cbn. exists s. subst. auto.
  - cbn [fold_left stitch_tokens].
    destruct (stitch_token_tracks M s l p lab pos Hnone Hl Hlen Hp)
      as (s1 & E1 & Hlen1 & Htext1).
    rewrite E1. cbn [Py.bind].
    pose proof (machine_step_none M (lab, pos) Hnone) as Hnone1.
    destruct (IH (machine_step M (lab, pos)) s1 _ _ Hnone1 eq_refl Hlen1 eq_refl)
      as (s' & E' & Htext').
    exists s'. split; [exact E'|].
    intros HM Hasc Hs. destruct (Z.eq_dec pos (-1)) as [->|Hne].
    + apply Htext'; [apply machine_step_ok; auto | exact Hasc | auto].
    + rewrite locations_cons in Hasc by exact Hne. simpl in Hasc.
      apply andb_prop in Hasc as [Hle Hasc]. apply Z.leb_le in Hle.
      apply Htext'; [apply machine_step_ok; auto | | auto].
      rewrite machine_step_cursor by exact Hne. exact Hasc.
Qed.

(** The record stitched for a document: its labels are those of the
    spans of the design's machine, one text per span; with char-locations
    that never go back, each text is the slice of its span. *)
Lemma stitch_doc_spans pairs :
  snd (stitch_doc doc pairs) = map sp_label (spans_of pairs)
  /\ List.length (fst (stitch_doc doc pairs)) = List.length (spans_of pairs)
  /\ (ascending 0 (locations pairs) = true ->
      fst (stitch_doc doc pairs) = map (span_text doc) (spans_of pairs)).
Proof.
  destruct (stitch_tokens_tracks pairs machine_reset [] [] 0)
    as (s' & E & Htext); try reflexivity.
  unfold stitch_doc. rewrite E. cbn [fst snd]. fold (spans_of pairs) in *.
  split; [reflexivity|]. split.
  - destruct (stitch_tokens_total doc [] [] 0 pairs eq_refl)
      as (s2 & l2 & p2 & E2 & Hlen2).
    rewrite E in E2. injection E2 as -> <- _.
    rewrite Hlen2, length_map. reflexivity.
  - intros Hasc. apply Htext; [exact machine_reset_ok | exact Hasc | reflexivity].
Qed.

End Refinement.

(** * Records of a laid-out batch, document by document *)

Lemma nth_error_combine_some {A B : Type} (l : list A) (l' : list B) i a b :
  nth_error l i = Some a -> nth_error l' i = Some b ->
  nth_error (combine l l') i = Some (a, b).
Proof.
  revert l l'. induction i as [|i IH]; intros [|x l] [|y l']; simpl; try discriminate.
  - intros [= ->] [= ->]. reflexivity.
  - apply IH.
Qed.

Lemma nth_error_stitched {proba : Type} step_size X
  (docs : list (list (chunk proba))) i doc g :
  nth_error X i = Some doc -> nth_error docs i = Some g ->
  nth_error (stitched step_size X docs) i
  = Some (stitch_doc doc (doc_pairs step_size true g)).
Proof.
  intros HX Hg. unfold stitched.
  rewrite (map_nth_error _ i (combine X docs) (nth_error_combine_some X docs i doc g HX Hg)).
  reflexivity.
Qed.

Lemma length_stitched {proba : Type} step_size X (docs : list (list (chunk proba))) :
  List.length X = List.length docs ->
  List.length (stitched step_size X docs) = List.length X.
Proof.
  intros H. unfold stitched. rewrite length_map, length_combine. lia.
Qed.

(** * Span stitching *)

(** C5.  A single-chunk document of six tokens labelled [A,A,B,B,B,A]
    with char-locations [1,2,3,4,5,6]: the loop of predict hands over three
    span texts, the characters (0,2), (2,5) and (5,6) of the document, with
    labels A, B, A. *)
Theorem merge_at_label_changes :
  forall (m : Model) (doc : text) (pre : list (list text)) (step_size : Z)
         (A B : label) (row : list Z) (rows : list (list Z)) (toks : list token),
    A <> B ->
    predict_stitch m [doc] pre
      {| token_ids := [(encoder_start m :: row) :: rows];
         tokens := [toks];
         char_locs := [[1; 2; 3; 4; 5; 6]] |}
      step_size [[A; A; B; B; B; A]]
    = Ok ([[slice (Some 0) (Some 2) doc;
            slice (Some 2) (Some 5) doc;
            slice (Some 5) (Some 6) doc]],
          [[A; B; A]]).
Proof.
  intros m doc pre step_size A B row rows toks HAB.
  pose (c := {| ch_ids := (encoder_start m :: row) :: rows;
                ch_tokens := toks;
                ch_locs := [1; 2; 3; 4; 5; 6];
                ch_labels := [A; A; B; B; B; A];
                ch_probas := @nil (list unit) |}).
  change (predict_stitch m [doc] pre (encode [[c]]) step_size (decoded_labels [[c]])
          = Ok ([[slice (Some 0) (Some 2) doc;
                  slice (Some 2) (Some 5) doc;
                  slice (Some 5) (Some 6) doc]],
                [[A; B; A]])).
  rewrite predict_stitch_layout.
  - unfold stitched. cbn [combine map fst snd doc_pairs is_nil window negb
                          ch_labels ch_locs c app].
    destruct (stitch_doc_spans doc
                (zip [A; A; B; B; B; A] [1; 2; 3; 4; 5; 6] ++ []))
      as (Hl & _ & Ht).
    specialize (Ht eq_refl). rewrite Ht, Hl.
    assert (Hs : spans_of (zip [A; A; B; B; B; A] [1; 2; 3; 4; 5; 6] ++ [])
                 = [ {| sp_start := 0; sp_end := 2; sp_label := A |};
                     {| sp_start := 2; sp_end := 5; sp_label := B |};
                     {| sp_start := 5; sp_end := 6; sp_label := A |} ]).
    { assert (EBA : String.eqb B A = false)
        by (apply String.eqb_neq; congruence).
      assert (EAB : String.eqb A B = false) by (apply String.eqb_neq; exact HAB).
      unfold spans_of, machine_spans, zip.
      cbn [combine app fold_left machine_step machine_reset Z.eqb Pos.eqb
           open closed cursor sp_label sp_start sp_end].
      repeat (rewrite ?String.eqb_refl, ?EBA, ?EAB;
              cbn [open closed cursor sp_label sp_start sp_end app]).
      reflexivity. }
    rewrite Hs. reflexivity.
  - unfold batch_layout, doc_layout, opens_doc, chunk_head. cbn.
    rewrite Z.eqb_refl. reflexivity.
  - reflexivity.
Qed.

Lemma merge_at_label_changes_witness :
  "A"%string <> "B"%string
  /\ predict_stitch
       {| encoder_start := 40478; config_max_length := 512;
          config_subtoken_predictions := false; classes_ := ["A"; "B"]%string |}
       [list_ascii_of_string "abcdef"] [[list_ascii_of_string "abcdef"]]
       {| token_ids := [[[40478; 40480]; [7; 40481]]];
          tokens := [["a"; "b"; "c"; "d"; "e"; "f"]%string];
          char_locs := [[1; 2; 3; 4; 5; 6]] |}
       170 [["A"; "A"; "B"; "B"; "B"; "A"]%string]
     = Ok ([[list_ascii_of_string "ab"; list_ascii_of_string "cde";
             list_ascii_of_string "f"]],
           [["A"; "B"; "A"]%string]).
Proof.
  assert (H : "A"%string <> "B"%string) by discriminate.
  split; [exact H|].
  exact (merge_at_label_changes
           {| encoder_start := 40478; config_max_length := 512;
              config_subtoken_predictions := false; classes_ := ["A"; "B"]%string |}
           (list_ascii_of_string "abcdef") [[list_ascii_of_string "abcdef"]] 170
           "A"%string "B"%string [40480] [[7; 40481]]
           ["a"; "b"; "c"; "d"; "e"; "f"]%string H).
Defined.

(** C6.  On a batch laid out document by document, the loop of predict
    hands over, for every document, labels of which none equals its
    predecessor (runs of one label are merged, also across the chunks of
    the document); and where the document's char-locations never go back,
    the span texts are the slices of character intervals in start order
    that do not overlap. *)
Theorem spans_ordered_and_maximal :
  forall (proba : Type) (m : Model) (X : list text) (pre : list (list text))
         (step_size : Z) (docs : list (list (chunk proba))),
    batch_layout m docs = true ->
    List.length X = List.length docs ->
    exists subseqs labels,
      predict_stitch m X pre (encode docs) step_size (decoded_labels docs)
      = Ok (subseqs, labels)
      /\ Forall no_adjacent_equal labels
      /\ forall i doc g,
           nth_error X i = Some doc ->
           nth_error docs i = Some g ->
           ascending 0 (locations (doc_pairs step_size true g)) = true ->
           let spans := spans_of (doc_pairs step_size true g) in
           nth_error subseqs i = Some (map (span_text doc) spans)
           /\ nth_error labels i = Some (map sp_label spans)
           /\ spans_ordered 0 spans.
Proof.
  intros proba m X pre step_size docs Hlay HX.
  exists (map fst (stitched step_size X docs)), (map snd (stitched step_size X docs)).
  split; [apply predict_stitch_layout; assumption|]. split.
  - apply Forall_map. unfold stitched. apply Forall_map.
    apply Forall_forall. intros [doc g] _. cbn [fst snd].
    destruct (stitch_doc_spans doc (doc_pairs step_size true g)) as (-> & _).
    apply spans_of_labels.
  - intros i doc g Hdoc Hg Hasc spans.
    pose proof (nth_error_stitched step_size X docs i doc g Hdoc Hg) as Hrec.
    destruct (stitch_doc_spans doc (doc_pairs step_size true g)) as (Hl & _ & Ht).
    rewrite (map_nth_error fst i _ Hrec), (map_nth_error snd i _ Hrec).
    rewrite Hl, (Ht Hasc). repeat split. apply spans_of_ordered. exact Hasc.
Qed.

Lemma spans_ordered_and_maximal_witness :
  batch_layout Sample.m Sample.docs = true
  /\ List.length Sample.X = List.length Sample.docs
  /\ exists subseqs labels,
       predict_stitch Sample.m Sample.X Sample.pre (encode Sample.docs) 2
         (decoded_labels Sample.docs)
       = Ok (subseqs, labels)
       /\ Forall no_adjacent_equal labels
       /\ nth_error subseqs 0
          = Some [list_ascii_of_string "ab"; list_ascii_of_string "cdef";
                  list_ascii_of_string "gh"]
       /\ nth_error labels 0 = Some ["A"; "B"; "A"]%string
       /\ spans_ordered 0
            [ {| sp_start := 0; sp_end := 2; sp_label := "A"%string |};
              {| sp_start := 2; sp_end := 6; sp_label := "B"%string |};
              {| sp_start := 6; sp_end := 8; sp_label := "A"%string |} ].
Proof.
  split; [reflexivity|]. split; [reflexivity|].
  destruct (spans_ordered_and_maximal Z Sample.m Sample.X Sample.pre 2 Sample.docs
              eq_refl eq_refl) as (subseqs & labels & E & Hn & H).
  exists subseqs, labels. split; [exact E|]. split; [exact Hn|].
  exact (H 0%nat (list_ascii_of_string "abcdefgh")
           [Sample.c1; Sample.c2; Sample.c3] eq_refl eq_refl eq_refl).
Defined.

(** * One record per document *)

Lemma machine_run_sentinels pairs :
  forall M, locations pairs = [] -> fold_left machine_step pairs M = M.
Proof.
  induction pairs as [|[lab pos] pairs IH]; intros M H; [reflexivity|].
  destruct (Z.eq_dec pos (-1)) as [->|Hne].
  - cbn [fold_left]. apply IH. exact H.
  - rewrite locations_cons in H by exact Hne. discriminate.
Qed.

(** A document whose authoritative positions are all padding gets the
    empty record. *)
Lemma stitch_doc_sentinels doc pairs :
  locations pairs = [] -> stitch_doc doc pairs = ([], []).
Proof.
  intros H. destruct (stitch_doc_spans doc pairs) as (Hl & Hn & _).
  unfold spans_of in *. rewrite (machine_run_sentinels pairs machine_reset H) in *.
  cbn in Hl, Hn. destruct (stitch_doc doc pairs) as [s l]. cbn [fst snd] in *.
  subst l. destruct s; [reflexivity | discriminate].
Qed.

(** C8, as the code has it.  When every document of the batch has at
    least one chunk (the first one beginning with the start marker, the
    others not), the loops of predict and predict_proba complete with
    exactly one record per document, in input order: record [i] is built
    from the authoritative positions of the chunks of document [i], and in
    predict it is empty when all these positions are padding. *)
Theorem one_record_per_chunked_document :
  forall (proba : Type) (m : Model) (X : list text) (pre : list (list text))
         (step_size : Z) (docs : list (list (chunk proba))),
    batch_layout m docs = true ->
    List.length X = List.length docs ->
    exists subseqs labels records,
      predict_stitch m X pre (encode docs) step_size (decoded_labels docs)
      = Ok (subseqs, labels)
      /\ predict_proba_collect proba m (encode docs) step_size (decoded_probas docs)
         = Ok records
      /\ List.length subseqs = List.length X
      /\ List.length labels = List.length X
      /\ List.length records = List.length X
      /\ forall i doc g,
           nth_error X i = Some doc ->
           nth_error docs i = Some g ->
           let pairs := doc_pairs step_size true g in
           nth_error subseqs i = Some (fst (stitch_doc doc pairs))
           /\ nth_error labels i = Some (snd (stitch_doc doc pairs))
           /\ nth_error records i
              = Some (proba_record m (doc_token_probas step_size true g))
           /\ (locations pairs = [] -> stitch_doc doc pairs = ([], [])).
Proof.
  intros proba m X pre step_size docs Hlay HX.
  exists (map fst (stitched step_size X docs)), (map snd (stitched step_size X docs)),
         (collected m step_size docs).
  split; [apply predict_stitch_layout; assumption|].
  split; [apply predict_proba_collect_layout; assumption|].
  rewrite !length_map, (length_stitched step_size X docs HX).
  unfold collected at 1. rewrite length_map.
  split; [reflexivity|]. split; [reflexivity|]. split; [symmetry; exact HX|].
  intros i doc g Hdoc Hg.
  pose proof (nth_error_stitched step_size X docs i doc g Hdoc Hg) as Hrec.
  rewrite (map_nth_error fst i _ Hrec), (map_nth_error snd i _ Hrec).
  unfold collected. rewrite (map_nth_error _ i docs Hg).
  repeat split. apply stitch_doc_sentinels.
Qed.

Lemma one_record_per_chunked_document_witness :
  batch_layout Sample.m Sample.docs = true
  /\ List.length Sample.X = List.length Sample.docs
  /\ exists subseqs labels records,
       predict_stitch Sample.m Sample.X Sample.pre (encode Sample.docs) 2
         (decoded_labels Sample.docs)
       = Ok (subseqs, labels)
       /\ predict_proba_collect Z Sample.m (encode Sample.docs) 2
            (decoded_probas Sample.docs)
          = Ok records
       /\ List.length subseqs = 2%nat
       /\ List.length labels = 2%nat
       /\ List.length records = 2%nat
       /\ nth_error subseqs 1 = Some [list_ascii_of_string "xy"]
       /\ nth_error labels 1 = Some ["B"%string].
Proof.
  split; [reflexivity|]. split; [reflexivity|].
  destruct (one_record_per_chunked_document Z Sample.m Sample.X Sample.pre 2
              Sample.docs eq_refl eq_refl)
    as (subseqs & labels & records & E1 & E2 & L1 & L2 & L3 & H).
  exists subseqs, labels, records.
  split; [exact E1|]. split; [exact E2|].
  split; [exact L1|]. split; [exact L2|]. split; [exact L3|].
  destruct (H 1%nat (list_ascii_of_string "xy") [Sample.c4] eq_refl eq_refl)
    as (H1 & H2 & _).
  split; [exact H1 | exact H2].
Defined.

(** A document for which the planner made no chunk gets no record: here
    the first of two texts has none, the loops return a single record, and
    predict stitches the chunk of the second text against the first. *)
Lemma document_without_chunk_is_dropped :
  let X := [list_ascii_of_string ""; list_ascii_of_string "xy"] in
  List.length X = 2%nat
  /\ predict_stitch Sample.m X (map (fun d => [d]) X) (encode [[Sample.c4]]) 2
       (decoded_labels [[Sample.c4]])
     = Ok ([[list_ascii_of_string ""]], [["B"%string]])
  /\ exists record,
       predict_proba_collect Z Sample.m (encode [[Sample.c4]]) 2
         (decoded_probas [[Sample.c4]])
       = Ok [record].
Proof.
  split; [reflexivity|]. split; [vm_compute; reflexivity|].
  eexists. vm_compute. reflexivity.
Qed.

(** * Lockstep of texts and labels *)

Lemma stitch_chunk_lockstep m X pre enc step_size idx label_seq position_seq st st' :
  lockstep st ->
  stitch_chunk m X pre enc step_size idx label_seq position_seq st = Ok st' ->
  lockstep st'.
Proof.
  intros [Hp Hall]. unfold stitch_chunk.
  destruct (start_of_doc_at m enc idx) as [sd|e]; cbn [Py.bind]; [|discriminate].
  destruct (end_of_doc_at m enc idx) as [ed|e]; cbn [Py.bind]; [|discriminate].
  destruct (stitch_tokens X pre _ _ _) as [v'|e] eqn:E; cbn [Py.bind]; [|discriminate].
  assert (Hv' : paired v').
  { eapply stitch_tokens_paired; [|exact E]. destruct sd; [reflexivity | exact Hp]. }
  destruct ed.
  - unfold flush. cbn [vars]. destruct v' as [|s l p]; [discriminate|].
    intros [= <-]. split; [exact Hv'|]. cbn [all_subseqs all_labels]. unfold append.
    apply Forall2_app; [exact Hall | constructor; [exact Hv' | constructor]].
  - intros [= <-]. split; [exact Hv' | exact Hall].
Qed.

Lemma stitch_chunks_lockstep m X pre enc step_size todo :
  forall idx st st',
    lockstep st ->
    stitch_chunks m X pre enc step_size idx todo st = Ok st' ->
    lockstep st'.
Proof.
  induction todo as [|[label_seq position_seq] todo IH]; intros idx st st' Hst.
  - intros [= <-]. exact Hst.
  - cbn [stitch_chunks].
    destruct (stitch_chunk m X pre enc step_size idx label_seq position_seq st)
      as [st1|e] eqn:E; cbn [Py.bind]; [|discriminate].
    apply IH. eapply stitch_chunk_lockstep; eauto.
Qed.

(** C10.  However many chunks of the batch predict has gone through, the
    texts and labels of the open document are equally many and the two
    batch lists pair each record of texts with a record of as many labels;
    and from there every further token keeps the open document's texts and
    labels equally many. *)
Theorem texts_and_labels_in_lockstep :
  forall (m : Model) (X : list text) (pre : list (list text))
         (enc : ArrayEncodedOutput) (step_size : Z) (labels : list (list label))
         (n : nat) (st : stitch_state),
    stitch_chunks m X pre enc step_size 0
      (firstn n (zip labels (char_locs enc))) stitch_init = Ok st ->
    lockstep st
    /\ forall idx pairs v',
         stitch_tokens X pre idx (vars st) pairs = Ok v' -> paired v'.
Proof.
  intros m X pre enc step_size labels n st E.
  assert (Hst : lockstep st).
  { eapply stitch_chunks_lockstep; [|exact E]. split; [exact I | constructor]. }
  split; [exact Hst|].
  intros idx pairs v' E'. eapply stitch_tokens_paired; [|exact E']. apply Hst.
Qed.

Lemma texts_and_labels_in_lockstep_witness :
  let st :=
    {| vars := InDoc [list_ascii_of_string "ab"; list_ascii_of_string "cde"]
                 ["A"; "B"]%string 5;
       doc_idx := 0; all_subseqs := []; all_labels := [] |} in
  stitch_chunks Sample.m Sample.X Sample.pre (encode Sample.docs) 2 0
    (firstn 2 (zip (decoded_labels Sample.docs) (char_locs (encode Sample.docs))))
    stitch_init = Ok st
  /\ lockstep st.
Proof.
  intros st.
  assert (H : stitch_chunks Sample.m Sample.X Sample.pre (encode Sample.docs) 2 0
                (firstn 2 (zip (decoded_labels Sample.docs)
                               (char_locs (encode Sample.docs))))
                stitch_init = Ok st) by reflexivity.
  split; [exact H|].
  exact (proj1 (texts_and_labels_in_lockstep Sample.m Sample.X Sample.pre
                  (encode Sample.docs) 2 (decoded_labels Sample.docs) 2 st H)).
Defined.

(** * Padding positions *)

(** In predict the token loop passes over padding positions: running it
    on a chunk's pairs is running it on those whose char-location is not
    the sentinel. *)
Lemma stitch_tokens_skip_padding X pre idx pairs :
  forall v,
    stitch_tokens X pre idx v pairs
    = stitch_tokens X pre idx v
        (filter (fun lp => negb (snd lp =? -1)) pairs).
Proof.
  induction pairs as [|[lab pos] pairs IH]; intros v; [reflexivity|].
  cbn [filter snd]. destruct (Z.eqb_spec pos (-1)) as [->|Hne]; cbn [negb].
  - cbn [stitch_tokens]. rewrite stitch_token_sentinel. cbn [Py.bind]. apply IH.
  - cbn [stitch_tokens]. destruct (stitch_token X pre idx v (lab, pos)); cbn [Py.bind];
      [apply IH | reflexivity].
Qed.

(** C2, at a failing input.  The loop of predict_proba never looks at
    the char-locations of the tokens it collects: for the one-chunk
    document "xy", whose first and last positions are padding
    (char-location -1), the start and classify markers are in the record. *)
Theorem predict_proba_keeps_padding_positions :
  char_locs (encode [[Sample.c4]]) = [[-1; 1; 2; -1]]
  /\ predict_proba_collect Z Sample.m (encode [[Sample.c4]]) 2
       (decoded_probas [[Sample.c4]])
     = Ok [[("_start_", [("<PAD>", 10); ("A", 700); ("B", 290)]);
            ("x", [("<PAD>", 10); ("A", 700); ("B", 290)]);
            ("y", [("<PAD>", 10); ("A", 700); ("B", 290)]);
            ("_classify_", [("<PAD>", 10); ("A", 700); ("B", 290)])]]%string.
Proof. split; vm_compute; reflexivity. Qed.

(** * Mismatched numbers of chunks and decoded arrays *)

(** Three decoded arrays for the four chunks of the sample batch: both
    loops return normally, without the second document. *)
Lemma fewer_arrays_than_chunks_is_no_error :
  List.length (firstn 3 (decoded_labels Sample.docs))
  <> List.length (char_locs (encode Sample.docs))
  /\ predict_stitch Sample.m Sample.X Sample.pre (encode Sample.docs) 2
       (firstn 3 (decoded_labels Sample.docs))
     = Ok ([[list_ascii_of_string "ab"; list_ascii_of_string "cdef";
             list_ascii_of_string "gh"]],
           [["A"; "B"; "A"]%string])
  /\ List.length (firstn 3 (decoded_probas Sample.docs))
     <> List.length (tokens (encode Sample.docs))
  /\ exists record,
       predict_proba_collect Z Sample.m (encode Sample.docs) 2
         (firstn 3 (decoded_probas Sample.docs))
       = Ok [record].
Proof.
  split; [vm_compute; discriminate|]. split; [vm_compute; reflexivity|].
  split; [vm_compute; discriminate|]. eexists. vm_compute. reflexivity.
Qed.

(** C3, as the code has it.  Neither method compares the number of
    chunks with the number of decoded arrays: each loop goes through the
    pairs of [zip], so decoded arrays beyond the last chunk are never
    read, and chunks beyond the last decoded array are never visited. *)
Theorem mismatched_counts_are_zipped_short :
  forall (proba : Type) (m : Model) (X : list text) (pre : list (list text))
         (enc : ArrayEncodedOutput) (step_size : Z)
         (labels : list (list label)) (batch_probas : list (list (list proba))),
    predict_stitch m X pre enc step_size labels
    = predict_stitch m X pre enc step_size
        (firstn (List.length (char_locs enc)) labels)
    /\ predict_stitch m X pre enc step_size labels
       = (st <- stitch_chunks m X pre enc step_size 0
                  (zip labels (firstn (List.length labels) (char_locs enc)))
                  stitch_init ;;
          Ok (all_subseqs st, all_labels st))
    /\ predict_proba_collect proba m enc step_size batch_probas
       = predict_proba_collect proba m enc step_size
           (firstn (List.length (tokens enc)) batch_probas)
    /\ predict_proba_collect proba m enc step_size batch_probas
       = predict_proba_collect proba m
           {| token_ids := token_ids enc;
              tokens := firstn (List.length batch_probas) (tokens enc);
              char_locs := char_locs enc |}
           step_size batch_probas.
Proof.
  intros proba m X pre enc step_size labels batch_probas.
  unfold predict_stitch, predict_proba_collect, zip. repeat split.
  - rewrite <- combine_firstn_r. reflexivity.
  - rewrite <- combine_firstn_l. reflexivity.
  - rewrite <- combine_firstn_l. reflexivity.
  - cbn [tokens]. rewrite <- combine_firstn_r.
    assert (H : forall todo idx st,
               collect_chunks proba m enc step_size idx todo st
               = collect_chunks proba m
                   {| token_ids := token_ids enc;
                      tokens := firstn (List.length batch_probas) (tokens enc);
                      char_locs := char_locs enc |}
                   step_size idx todo st).
    { induction todo as [|[token_seq proba_seq] todo IH]; intros idx st; [reflexivity|].
      cbn [collect_chunks].
      change (collect_chunk proba m
                {| token_ids := token_ids enc;
                   tokens := firstn (List.length batch_probas) (tokens enc);
                   char_locs := char_locs enc |}
                step_size idx token_seq proba_seq st)
        with (collect_chunk proba m enc step_size idx token_seq proba_seq st).
      destruct (collect_chunk proba m enc step_size idx token_seq proba_seq st);
        cbn [Py.bind]; [apply IH | reflexivity]. }
    rewrite H. reflexivity.
Qed.

(** * A step size of zero *)

Lemma window_zero_step {A : Type} (is_first is_last : bool) (seq : list A) :
  window 0 is_first is_last seq = if is_last then seq else [].
Proof.
  unfold window. pose proof (len_nonneg seq) as Hn.
  destruct is_first, is_last; cbn [negb]; try reflexivity.
  - change (0 * 2) with 0. rewrite slice_from_start. apply slice_empty.
  - rewrite slice_to_end. apply slice_whole.
  - change (0 * 2) with 0. apply slice_empty.
Qed.

(** With [max_length = 4] the step size is 0, and both methods go through
    the chunks of the sample batch and return. *)
Lemma zero_step_is_processed :
  (4 - 2) / 3 = 0
  /\ predict (list (list text) * list (list label))
       (fun X => map (fun d => [d]) X)
       (fun _ subseqs labels _ => (subseqs, labels))
       (fun _ => encode Sample.docs)
       (fun _ _ => decoded_labels Sample.docs)
       Sample.m Sample.X (Some 4)
     = Ok ([[list_ascii_of_string "abcdef"; list_ascii_of_string "gh"];
            [list_ascii_of_string "xy"]],
           [["B"; "A"]; ["B"]]%string)
  /\ exists records,
       predict_proba Z
         (fun X => map (fun d => [d]) X)
         (fun _ => encode Sample.docs)
         (fun _ _ => decoded_probas Sample.docs)
         Sample.m Sample.X (Some 4)
       = Ok records.
Proof.
  split; [reflexivity|]. split; [vm_compute; reflexivity|].
  eexists. vm_compute. reflexivity.
Qed.

(** C4, as the code has it.  Neither method checks [max_length]: when
    [(max_length - 2) // 3 == 0] the loops run with a step size of 0 and,
    on a batch laid out document by document, return one record per
    document; with that step a chunk keeps all its positions when it is
    the last of its document and none otherwise. *)
Theorem zero_step_is_not_rejected :
  forall (proba annotations : Type)
         (indico_to_finetune_sequence : list text -> list (list text))
         (finetune_to_indico_sequence :
            list text -> list (list text) -> list (list label) -> bool -> annotations)
         (_text_to_ids : list (list text) -> ArrayEncodedOutput)
         (_predict : list (list text) -> Z -> list (list label))
         (_predict_proba : list (list text) -> option Z -> list (list (list proba)))
         (m : Model) (X : list text) (max_length : option Z)
         (docs : list (list (chunk proba))),
    (max_length_or max_length (config_max_length m) - 2) / 3 = 0 ->
    _text_to_ids (indico_to_finetune_sequence X) = encode docs ->
    batch_layout m docs = true ->
    List.length X = List.length docs ->
    _predict (indico_to_finetune_sequence X)
      (max_length_or max_length (config_max_length m)) = decoded_labels docs ->
    _predict_proba (indico_to_finetune_sequence X) max_length = decoded_probas docs ->
    predict annotations indico_to_finetune_sequence finetune_to_indico_sequence
      _text_to_ids _predict m X max_length
    = Ok (finetune_to_indico_sequence X
            (map fst (stitched 0 X docs)) (map snd (stitched 0 X docs))
            (config_subtoken_predictions m))
    /\ predict_proba proba indico_to_finetune_sequence _text_to_ids _predict_proba
         m X max_length
       = Ok (collected m 0 docs)
    /\ forall (A : Type) (is_first is_last : bool) (seq : list A),
         window ((max_length_or max_length (config_max_length m) - 2) / 3)
           is_first is_last seq
         = if is_last then seq else [].
Proof.
  intros proba annotations i2f f2i t2i p pp m X max_length docs
         Hstep Henc Hlay HX Hp Hpp.
  unfold predict, predict_proba. rewrite Hstep, Henc, Hp, Hpp.
  rewrite predict_stitch_layout by assumption.
  rewrite predict_proba_collect_layout by assumption.
  cbn [Py.bind]. repeat split. intros A is_first is_last seq.
  apply window_zero_step.
Qed.

Lemma zero_step_is_not_rejected_witness :
  (max_length_or (Some 4) (config_max_length Sample.m) - 2) / 3 = 0
  /\ batch_layout Sample.m Sample.docs = true
  /\ List.length Sample.X = List.length Sample.docs
  /\ predict (list (list text) * list (list label))
       (fun X => map (fun d => [d]) X)
       (fun _ subseqs labels _ => (subseqs, labels))
       (fun _ => encode Sample.docs)
       (fun _ _ => decoded_labels Sample.docs)
       Sample.m Sample.X (Some 4)
     = Ok ([[list_ascii_of_string "abcdef"; list_ascii_of_string "gh"];
            [list_ascii_of_string "xy"]],
           [["B"; "A"]; ["B"]]%string).
Proof.
  split; [reflexivity|]. split; [reflexivity|]. split; [reflexivity|].
  exact (proj1 (zero_step_is_not_rejected Z (list (list text) * list (list label))
                  (fun X => map (fun d => [d]) X)
                  (fun _ subseqs labels _ => (subseqs, labels))
                  (fun _ => encode Sample.docs)
                  (fun _ _ => decoded_labels Sample.docs)
                  (fun _ _ => decoded_probas Sample.docs)
                  Sample.m Sample.X (Some 4) Sample.docs
                  eq_refl eq_refl eq_refl eq_refl eq_refl eq_refl)).
Defined.

(** * The decode wrappers *)

(** The two wrappers call the decoder once each.  With a decoder that
    counts its calls and returns the count as labels and as probabilities,
    asking for both gives labels 0 and probabilities 1 after two calls, a
    pair that no single call of this decoder returns. *)
Lemma decode_paths_are_two_calls :
  let counting (_ : unit) (_ : option unit) (n : nat) := ((n, n), S n) in
  decode_both unit unit nat nat nat counting tt [] 0%nat = (0%nat, 1%nat, 2%nat)
  /\ forall s : nat, fst (counting tt None s) <> (0%nat, 1%nat).
Proof.
  intros counting. split; [reflexivity|].
  intros s. unfold counting. cbn [fst]. intros H.
  injection H as H0 H1. rewrite H0 in H1. discriminate.
Qed.

(** C9, as the code has it.  [_predict_op] and [_predict_proba_op] each
    make a call of their own to [sequence_decode], with the same logits
    and the same [transition_matrix] entry of the keywords, and keep the
    first and the second component of what it returns.  When the result
    of [sequence_decode] for these arguments is the same whatever the
    decoder's state, the labels and the probabilities a caller gets from
    the two wrappers are the two components of that one result. *)
Theorem decode_paths_agree_for_a_pure_decoder :
  forall (logits matrix label_idxs label_probas decoder_state : Type)
         (sequence_decode :
            logits -> option matrix -> decoder_state
            -> (label_idxs * label_probas) * decoder_state)
         (lg : logits) (kwargs : list (string * matrix)),
    (forall s s',
        fst (sequence_decode lg (dict_get kwargs "transition_matrix") s)
        = fst (sequence_decode lg (dict_get kwargs "transition_matrix") s')) ->
    forall s,
      fst (decode_both logits matrix label_idxs label_probas decoder_state
             sequence_decode lg kwargs s)
      = fst (sequence_decode lg (dict_get kwargs "transition_matrix") s).
Proof.
  intros logits matrix label_idxs label_probas decoder_state sequence_decode
         lg kwargs Hpure s.
  unfold decode_both, _predict_op, _predict_proba_op.
  destruct (sequence_decode lg (dict_get kwargs "transition_matrix") s)
    as [[l p0] s1] eqn:E1.
  pose proof (Hpure s s1) as H. rewrite E1 in H.
  destruct (sequence_decode lg (dict_get kwargs "transition_matrix") s1)
    as [[l1 p] s2].
  cbn [fst] in *. injection H as _ ->. reflexivity.
Qed.

Lemma decode_paths_agree_for_a_pure_decoder_witness :
  let argmax (lg : Z) (_ : option unit) (calls : nat) := ((lg, lg + 1), S calls) in
  (forall s s' : nat,
      fst (argmax 7 (dict_get (@nil (string * unit)) "transition_matrix") s)
      = fst (argmax 7 (dict_get (@nil (string * unit)) "transition_matrix") s'))
  /\ fst (decode_both Z unit Z Z nat argmax 7 [] 0%nat) = (7, 8).
Proof.
  intros argmax.
  assert (Hpure : forall s s' : nat,
             fst (argmax 7 (dict_get (@nil (string * unit)) "transition_matrix") s)
             = fst (argmax 7 (dict_get (@nil (string * unit)) "transition_matrix") s'))
    by reflexivity.
  split; [exact Hpure|].
  exact (decode_paths_agree_for_a_pure_decoder Z unit Z Z nat argmax 7 []
           Hpure 0%nat).
Defined.

(** * Windows as slices of the chunk *)

Section WindowFacts.

Context {A : Type}.
Implicit Types (l seq : list A) (a b : Z).

Lemma slice_infix (start stop : option Z) l :
  exists before after, l = before ++ slice start stop l ++ after.
Proof.
  unfold slice.
  set (lo := match start with Some i => slice_index (len l) i | None => 0 end).
  set (hi := match stop with Some j => slice_index (len l) j | None => len l end).
  exists (firstn (Z.to_nat lo) l),
         (skipn (Z.to_nat (hi - lo)) (skipn (Z.to_nat lo) l)).
  rewrite firstn_skipn, firstn_skipn. reflexivity.
Qed.

Lemma len_slice l a b :
  0 <= a -> 0 <= b ->
  len (slice (Some a) (Some b) l) = Z.max 0 (Z.min b (len l) - Z.min a (len l)).
Proof.
  intros Ha Hb. unfold slice, slice_index. pose proof (len_nonneg l) as Hn.
  destruct (Z.ltb_spec a 0); [lia|]. destruct (Z.ltb_spec b 0); [lia|].
  unfold len in *. rewrite length_firstn, length_skipn. lia.
Qed.

(** The length of a slice depends on the sequence through its length
    only. *)
Lemma length_slice_same {B : Type} (start stop : option Z) l (l' : list B) :
  List.length l = List.length l' ->
  List.length (slice start stop l) = List.length (slice start stop l').
Proof.
  intros H. unfold slice, len. rewrite H, !length_firstn, !length_skipn, H.
  reflexivity.
Qed.

Lemma slice_all l b : len l <= b -> slice (Some 0) (Some b) l = l.
Proof.
  intros H. pose proof (len_nonneg l) as Hn.
  apply nth_error_ext. intros k. rewrite nth_error_slice by lia.
  destruct (Z.ltb_spec (0 + Z.of_nat k) b).
  - f_equal. lia.
  - symmetry. apply nth_error_beyond. lia.
Qed.

(** A slice of a slice is a slice. *)
Lemma slice_slice l a b lo hi :
  0 <= a -> 0 <= b -> 0 <= lo -> 0 <= hi ->
  slice (Some lo) (Some hi) (slice (Some a) (Some b) l)
  = slice (Some (a + lo)) (Some (Z.min (a + hi) b)) l.
Proof.
  intros Ha Hb Hlo Hhi. apply nth_error_ext. intros k.
  rewrite !nth_error_slice by lia.
  rewrite (Z2Nat.id (lo + Z.of_nat k)) by lia.
  destruct (Z.ltb_spec (lo + Z.of_nat k) hi);
    destruct (Z.ltb_spec (a + (lo + Z.of_nat k)) b);
    destruct (Z.ltb_spec (a + lo + Z.of_nat k) (Z.min (a + hi) b));
    try lia; try reflexivity.
  f_equal. lia.
Qed.

End WindowFacts.

(** X1.  Whatever the step size, also a negative one, and whatever the
    flags, the window of a sequence is a run of consecutive elements of
    it: nothing is reordered, repeated or made up. *)
Theorem window_is_infix :
  forall (A : Type) (step_size : Z) (is_first is_last : bool) (seq : list A),
    exists before after,
      seq = before ++ window step_size is_first is_last seq ++ after.
Proof.
  intros A step_size is_first is_last seq. unfold window.
  destruct is_first, is_last; cbn [negb]; try apply slice_infix.
  exists [], []. rewrite app_nil_r. reflexivity.
Qed.

(** X2.  With a step that is not negative, a chunk that holds at least
    two steps of positions gives exactly two steps when it is first and
    not last, one step when it is in the middle, and all but its first
    step when it is last and not first. *)
Theorem window_lengths :
  forall (A : Type) (step_size : Z) (seq : list A),
    0 <= step_size ->
    2 * step_size <= len seq ->
    len (window step_size true false seq) = 2 * step_size
    /\ len (window step_size false false seq) = step_size
    /\ len (window step_size false true seq) = len seq - step_size
    /\ len (window step_size true true seq) = len seq.
Proof.
  intros A step_size seq Hs Hlen. unfold window. cbn [negb].
  rewrite slice_from_start, slice_to_end, !len_slice by lia.
  repeat split; lia.
Qed.

Lemma window_lengths_witness :
  0 <= 2
  /\ 2 * 2 <= len ["t0"; "t1"; "t2"; "t3"; "t4"; "t5"]%string
  /\ len (window 2 false false ["t0"; "t1"; "t2"; "t3"; "t4"; "t5"]%string) = 2.
Proof.
  assert (H0 : 0 <= 2) by lia.
  assert (H1 : 2 * 2 <= len ["t0"; "t1"; "t2"; "t3"; "t4"; "t5"]%string)
    by (vm_compute; discriminate).
  split; [exact H0|]. split; [exact H1|].
  exact (proj1 (proj2 (window_lengths string 2
                         ["t0"; "t1"; "t2"; "t3"; "t4"; "t5"]%string H0 H1))).
Defined.

(** * Windows of chunks laid one step apart *)

Section Tiling.

Context {A : Type}.
Variables (seq : list A) (step_size width : Z).
Hypothesis step_nonneg : 0 <= step_size.
Hypothesis two_steps_fit : 2 * step_size <= width.

Lemma len_chunk_at (j : nat) :
  len (chunk_at step_size width seq j)
  = Z.max 0 (Z.min (Z.of_nat j * step_size + width) (len seq)
             - Z.min (Z.of_nat j * step_size) (len seq)).
Proof. unfold chunk_at. apply len_slice; nia. Qed.

(** The chunks after the first: a middle chunk gives its second step,
    the last chunk everything after its first step. *)
Lemma doc_windows_after_first (n : nat) :
  forall j : nat,
    Z.of_nat (j + S n) * step_size <= len seq ->
    len seq <= Z.of_nat (j + n) * step_size + width ->
    doc_windows step_size false
      (map (chunk_at step_size width seq) (List.seq j (S n)))
    = slice (Some (Z.of_nat j * step_size + step_size)) (Some (len seq)) seq.
Proof.
  induction n as [|n IH]; intros j Hfull Hend.
  - cbn [List.seq map doc_windows is_nil window]. rewrite app_nil_r.
    rewrite slice_to_end, len_chunk_at. unfold chunk_at.
    rewrite slice_slice by nia. f_equal. f_equal. nia.
  - change (List.seq j (S (S n))) with (j :: List.seq (S j) (S n)).
    cbn [map doc_windows]. rewrite (IH (S j)) by (try nia; rewrite <- Hend; f_equal; nia).
    change (List.seq (S j) (S n)) with (S j :: List.seq (S (S j)) n).
    cbn [map is_nil window]. unfold chunk_at at 1.
    rewrite slice_slice by nia.
    replace (Z.min (Z.of_nat j * step_size + step_size * 2)
               (Z.of_nat j * step_size + width))
      with (Z.of_nat j * step_size + step_size * 2) by nia.
    replace (Z.of_nat (S j) * step_size + step_size)
      with (Z.of_nat j * step_size + step_size * 2) by nia.
    apply slice_slice_app; nia.
Qed.

End Tiling.

Lemma doc_windows_strided :
  forall (A : Type) (seq : list A) (step_size width : Z) (k : nat),
    0 <= step_size ->
    2 * step_size <= width ->
    (1 <= k)%nat ->
    ((2 <= k)%nat -> Z.of_nat k * step_size <= len seq) ->
    len seq <= (Z.of_nat k - 1) * step_size + width ->
    doc_windows step_size true
      (map (chunk_at step_size width seq) (List.seq 0 k))
    = seq.
Proof.
  intros A seq step_size width k Hs Hw Hk Hfull Hend.
  destruct k as [|[|n]]; [lia| |].
  - cbn [List.seq map doc_windows is_nil window negb]. rewrite app_nil_r.
    unfold chunk_at. change (Z.of_nat 0 * step_size) with 0.
    apply slice_all. lia.
  - change (List.seq 0 (S (S n))) with (0%nat :: List.seq 1 (S n)).
    cbn [map doc_windows].
    rewrite (doc_windows_after_first seq step_size width Hs Hw n 1%nat).
    + change (List.seq 1 (S n)) with (1%nat :: List.seq 2 n).
      cbn [map is_nil window negb]. rewrite slice_from_start. unfold chunk_at.
      change (Z.of_nat 0 * step_size) with 0.
      rewrite slice_slice by lia.
      replace (Z.min (0 + step_size * 2) (0 + width)) with (step_size * 2) by lia.
      replace (Z.of_nat 1 * step_size + step_size) with (step_size * 2) by lia.
      pose proof (Hfull ltac:(lia)) as Hfull'.
      rewrite slice_slice_app by nia. apply slice_whole.
    + apply Hfull. lia.
    + rewrite Hend. f_equal. nia.
Qed.

(** X3.  The layout drawn in predict's comment, [ 1 | 1 | 2 | 3 | 3 ]:
    when the chunks of a sequence begin one step apart, each holds at
    least two steps, every chunk but the last is full up to its second
    step and the last one reaches the end of the sequence, then the
    windows of the chunks, one after the other, are the sequence itself:
    every position is kept from exactly one chunk, in order. *)
Theorem strided_windows_tile :
  forall (A : Type) (seq : list A) (step_size width : Z) (k : nat),
    0 <= step_size ->
    2 * step_size <= width ->
    (1 <= k)%nat ->
    ((2 <= k)%nat -> Z.of_nat k * step_size <= len seq) ->
    len seq <= (Z.of_nat k - 1) * step_size + width ->
    doc_windows step_size true
      (map (chunk_at step_size width seq) (List.seq 0 k))
    = seq.
Proof. exact doc_windows_strided. Qed.

Lemma strided_windows_tile_witness :
  let all := ["_start_"; "a"; "b"; "c"; "d"; "e"; "f"; "g"; "h"; "_classify_"]%string in
  map ch_tokens [Sample.c1; Sample.c2; Sample.c3]
  = map (chunk_at 2 6 all) (List.seq 0 3)
  /\ doc_windows 2 true (map ch_tokens [Sample.c1; Sample.c2; Sample.c3]) = all.
Proof.
  intros all. split; [reflexivity|].
  assert (H1 : 0 <= 2) by lia.
  assert (H2 : 2 * 2 <= 6) by lia.
  assert (H3 : (1 <= 3)%nat) by lia.
  assert (H4 : (2 <= 3)%nat -> Z.of_nat 3 * 2 <= len all)
    by (intros _; vm_compute; discriminate).
  assert (H5 : len all <= (Z.of_nat 3 - 1) * 2 + 6) by (vm_compute; discriminate).
  exact (strided_windows_tile string all 2 6 3 H1 H2 H3 H4 H5).
Defined.

(** * Tokens of the records of predict_proba *)

Lemma length_window_same {A B : Type} step_size is_first is_last
  (a : list A) (b : list B) :
  List.length a = List.length b ->
  List.length (window step_size is_first is_last a)
  = List.length (window step_size is_first is_last b).
Proof.
  intros H. unfold window.
  destruct is_first, is_last; cbn [negb]; try apply length_slice_same; exact H.
Qed.

Lemma map_fst_zip {A B : Type} (a : list A) :
  forall b : list B, (List.length a <= List.length b)%nat -> map fst (zip a b) = a.
Proof.
  unfold zip. induction a as [|x a IH]; intros [|y b] H; simpl in *; try lia.
  - reflexivity.
  - reflexivity.
  - f_equal. apply IH. lia.
Qed.

Lemma is_nil_map {A B : Type} (f : A -> B) (l : list A) : is_nil (map f l) = is_nil l.
Proof. destruct l; reflexivity. Qed.

(** When every chunk has as many score rows as tokens, the tokens of a
    document's pairs are the windows of its chunks' tokens. *)
Lemma doc_token_probas_tokens {proba : Type} step_size (g : list (chunk proba)) :
  forall is_first,
    Forall (fun c => List.length (ch_tokens c) = List.length (ch_probas c)) g ->
    map fst (doc_token_probas step_size is_first g)
    = doc_windows step_size is_first (map ch_tokens g).
Proof.
  induction g as [|c g IH]; intros is_first H; [reflexivity|].
  inversion H as [|? ? Hc Hg]; subst.
  cbn [doc_token_probas map doc_windows]. rewrite map_app, is_nil_map.
  rewrite (IH false Hg). f_equal. apply map_fst_zip.
  rewrite (length_window_same step_size is_first (is_nil g) _ _ Hc). lia.
Qed.

(** X4.  predict_proba on a laid-out batch: for a document whose chunks
    hold the tokens of a sequence one step apart (as in X3) and as many
    score rows as tokens, the record lists the tokens of the whole
    sequence, each once and in order, the start and classify markers
    included. *)
Theorem predict_proba_lists_every_token :
  forall (proba : Type) (m : Model) (step_size width : Z)
         (docs : list (list (chunk proba))) (i : nat) (g : list (chunk proba))
         (toks : list token) (k : nat),
    batch_layout m docs = true ->
    nth_error docs i = Some g ->
    Forall (fun c => List.length (ch_tokens c) = List.length (ch_probas c)) g ->
    map ch_tokens g = map (chunk_at step_size width toks) (List.seq 0 k) ->
    0 <= step_size ->
    2 * step_size <= width ->
    (1 <= k)%nat ->
    ((2 <= k)%nat -> Z.of_nat k * step_size <= len toks) ->
    len toks <= (Z.of_nat k - 1) * step_size + width ->
    exists records record,
      predict_proba_collect proba m (encode docs) step_size (decoded_probas docs)
      = Ok records
      /\ nth_error records i = Some record
      /\ map fst record = toks.
Proof.
  intros proba m step_size width docs i g toks k Hlay Hg Hrows Htoks Hs Hw Hk Hfull Hend.
  exists (collected m step_size docs),
         (proba_record m (doc_token_probas step_size true g)).
  split; [apply predict_proba_collect_layout; exact Hlay|].
  split.
  { unfold collected.
    exact (map_nth_error
             (fun g0 => proba_record m (doc_token_probas step_size true g0))
             i docs Hg). }
  unfold proba_record. rewrite map_map. cbn [fst].
  change (map (fun x => fst x) (doc_token_probas step_size true g))
    with (map fst (doc_token_probas step_size true g)).
  rewrite (doc_token_probas_tokens step_size g true Hrows), Htoks.
  apply doc_windows_strided; assumption.
Qed.

Lemma predict_proba_lists_every_token_witness :
  exists records record,
    predict_proba_collect Z Sample.m (encode Sample.docs) 2
      (decoded_probas Sample.docs)
    = Ok records
    /\ nth_error records 0 = Some record
    /\ map fst record
       = ["_start_"; "a"; "b"; "c"; "d"; "e"; "f"; "g"; "h"; "_classify_"]%string.
Proof.
  assert (Hrows : Forall (fun c : chunk Z =>
                            List.length (ch_tokens c) = List.length (ch_probas c))
                    [Sample.c1; Sample.c2; Sample.c3])
    by (repeat constructor).
  assert (H1 : 0 <= 2) by lia.
  assert (H2 : 2 * 2 <= 6) by lia.
  assert (H3 : (1 <= 3)%nat) by lia.
  assert (H4 : (2 <= 3)%nat ->
               Z.of_nat 3 * 2
               <= len ["_start_"; "a"; "b"; "c"; "d"; "e"; "f"; "g"; "h";
                       "_classify_"]%string)
    by (intros _; vm_compute; discriminate).
  assert (H5 : len ["_start_"; "a"; "b"; "c"; "d"; "e"; "f"; "g"; "h";
                    "_classify_"]%string
               <= (Z.of_nat 3 - 1) * 2 + 6) by (vm_compute; discriminate).
  exact (predict_proba_lists_every_token Z Sample.m 2 6 Sample.docs 0
           [Sample.c1; Sample.c2; Sample.c3]
           ["_start_"; "a"; "b"; "c"; "d"; "e"; "f"; "g"; "h"; "_classify_"]%string
           3 eq_refl eq_refl Hrows eq_refl H1 H2 H3 H4 H5).
Defined.

(** * Padding and label runs in predict *)

(** X5.  The token loop of predict passes over padding: from any state
    of its locals, going through a window is going through its pairs
    whose char-location is not -1, errors included. *)
Theorem predict_padding_is_invisible :
  forall (X : list text) (pre : list (list text)) (idx : Z) (v : doc_vars)
         (pairs : list (label * Z)),
    stitch_tokens X pre idx v pairs = stitch_tokens X pre idx v (unpadded pairs).
Proof.
  intros X pre idx v pairs. unfold unpadded. apply stitch_tokens_skip_padding.
Qed.

Lemma compress_cons (x y : label) (t : list label) :
  compress (x :: y :: t)
  = if String.eqb x y then compress (y :: t) else x :: compress (y :: t).
Proof. reflexivity. Qed.

Lemma compress_snoc_same (L0 : list label) (b : label) :
  compress ((L0 ++ [b]) ++ [b]) = compress (L0 ++ [b]).
Proof.
  induction L0 as [|x L0 IH].
  - cbn. rewrite String.eqb_refl. reflexivity.
  - destruct L0 as [|y L0].
    + cbn [app]. rewrite !compress_cons, String.eqb_refl.
      destruct (String.eqb x b); reflexivity.
    + cbn [app] in *. rewrite !compress_cons, IH. reflexivity.
Qed.

Lemma compress_snoc_diff (L0 : list label) (a b : label) :
  a <> b -> compress ((L0 ++ [b]) ++ [a]) = compress (L0 ++ [b]) ++ [a].
Proof.
  intros Hab.
  assert (E : String.eqb b a = false) by (apply String.eqb_neq; congruence).
  induction L0 as [|x L0 IH].
  - cbn. rewrite E. reflexivity.
  - destruct L0 as [|y L0].
    + cbn [app]. rewrite !compress_cons, E.
      destruct (String.eqb x b); reflexivity.
    + cbn [app] in *. rewrite !compress_cons, IH.
      destruct (String.eqb x y); reflexivity.
Qed.

Lemma unpadded_cons_sentinel lab pairs : unpadded ((lab, -1) :: pairs) = unpadded pairs.
Proof. reflexivity. Qed.

Lemma unpadded_cons lab pos pairs :
  pos <> -1 -> unpadded ((lab, pos) :: pairs) = (lab, pos) :: unpadded pairs.
Proof.
  intros H. unfold unpadded. cbn [filter snd].
  destruct (Z.eqb_spec pos (-1)); [contradiction | reflexivity].
Qed.

(** The labels of the machine's spans are the runs of the labels it has
    been given. *)
Lemma machine_run_compress (pairs : list (label * Z)) :
  forall (M : machine) (L : list label),
    map sp_label (machine_spans M) = compress L ->
    match open M with
    | None => closed M = [] /\ L = []
    | Some sp => exists L0, L = L0 ++ [sp_label sp]
    end ->
    map sp_label (machine_spans (fold_left machine_step pairs M))
    = compress (L ++ map fst (unpadded pairs)).
Proof.
  induction pairs as [|[lab pos] pairs IH]; intros M L Hl Ho.
  - cbn. rewrite app_nil_r. exact Hl.
  - cbn [fold_left]. destruct (Z.eq_dec pos (-1)) as [->|Hne].
    + rewrite unpadded_cons_sentinel. apply IH; assumption.
    + rewrite unpadded_cons by exact Hne. cbn [map fst].
      replace (L ++ lab :: map fst (unpadded pairs))
        with ((L ++ [lab]) ++ map fst (unpadded pairs))
        by (rewrite <- app_assoc; reflexivity).
      unfold machine_step. destruct (Z.eqb_spec pos (-1)) as [|_]; [contradiction|].
      unfold machine_spans in Hl.
      destruct (open M) as [sp|] eqn:Eo.
      * destruct Ho as [L0 ->].
        destruct (String.eqb_spec lab (sp_label sp)) as [->|Hd].
        -- apply IH.
           ++ unfold machine_spans. cbn [closed open].
              rewrite map_app in *. cbn [map sp_label] in *.
              rewrite compress_snoc_same. exact Hl.
           ++ cbn [open sp_label]. exists (L0 ++ [sp_label sp]). reflexivity.
        -- apply IH.
           ++ unfold machine_spans. cbn [closed open].
              rewrite !map_app in *. cbn [map sp_label] in *.
              rewrite compress_snoc_diff by exact Hd. rewrite Hl. reflexivity.
           ++ cbn [open sp_label]. exists (L0 ++ [sp_label sp]). reflexivity.
      * destruct Ho as [Hc ->]. apply IH.
        -- unfold machine_spans. cbn [closed open]. rewrite Hc. reflexivity.
        -- cbn [open sp_label]. exists []. reflexivity.
Qed.

Lemma stitch_doc_labels doc pairs :
  snd (stitch_doc doc pairs) = compress (map fst (unpadded pairs)).
Proof.
  destruct (stitch_doc_spans doc pairs) as (-> & _).
  unfold spans_of.
  exact (machine_run_compress pairs machine_reset [] eq_refl (conj eq_refl eq_refl)).
Qed.

Lemma map_snd_combine {A B C : Type} (h : B -> C) (X : list A) :
  forall docs : list B,
    List.length X = List.length docs ->
    map (fun dg => h (snd dg)) (combine X docs) = map h docs.
Proof.
  induction X as [|x X IH]; intros [|g docs] H; simpl in *; try lia.
  - reflexivity.
  - f_equal. apply IH. lia.
Qed.

(** X6.  On a batch laid out document by document, the labels predict
    hands over for a document are the label sequence of its authoritative
    tokens that are not padding, with each run of one label reduced to one
    label, whatever the texts and the char-locations are. *)
Theorem predict_labels_are_label_runs :
  forall (proba : Type) (m : Model) (X : list text) (pre : list (list text))
         (step_size : Z) (docs : list (list (chunk proba))),
    batch_layout m docs = true ->
    List.length X = List.length docs ->
    exists subseqs,
      predict_stitch m X pre (encode docs) step_size (decoded_labels docs)
      = Ok (subseqs,
            map (fun g => compress (map fst (unpadded (doc_pairs step_size true g))))
                docs).
Proof.
  intros proba m X pre step_size docs Hlay HX.
  exists (map fst (stitched step_size X docs)).
  rewrite predict_stitch_layout by assumption. f_equal. f_equal.
  unfold stitched. rewrite map_map.
  rewrite <- (map_snd_combine
                (fun g => compress (map fst (unpadded (doc_pairs step_size true g))))
                X docs HX).
  apply map_ext. intros [doc g]. cbn [fst snd]. apply stitch_doc_labels.
Qed.

Lemma predict_labels_are_label_runs_witness :
  exists subseqs,
    predict_stitch Sample.m Sample.X Sample.pre (encode Sample.docs) 2
      (decoded_labels Sample.docs)
    = Ok (subseqs, [["A"; "B"; "A"]; ["B"]]%string).
Proof.
  exact (predict_labels_are_label_runs Z Sample.m Sample.X Sample.pre 2 Sample.docs
           eq_refl eq_refl).
Defined.

(** * Errors of the two loops *)

Lemma stitch_tokens_no_doc X pre idx (pairs : list (label * Z)) :
  stitch_tokens X pre idx NoDoc pairs = Ok NoDoc
  \/ exists e, stitch_tokens X pre idx NoDoc pairs = Raise e.
Proof.
  induction pairs as [|[lab pos] pairs IH]; [left; reflexivity|].
  cbn [stitch_tokens]. unfold stitch_token.
  destruct (pos =? -1); cbn [Py.bind]; [exact IH|].
  right. destruct pre; [destruct (getitem X idx)|]; cbn [Py.bind]; eauto.
Qed.

Lemma collect_tokens_unbound {proba : Type} m (pairs : list (token * list proba)) :
  collect_tokens proba m None pairs = Ok None
  \/ exists e, collect_tokens proba m None pairs = Raise e.
Proof.
  destruct pairs as [|[tok p] pairs]; [left; reflexivity|].
  right. cbn. eauto.
Qed.

(** When [end_of_doc] is false there is a next chunk, and it does not
    begin with the start marker. *)
Lemma end_of_doc_false_next m enc idx :
  end_of_doc_at m enc idx = Ok false ->
  idx + 1 < len (char_locs enc) /\ start_of_doc_at m enc (idx + 1) = Ok false.
Proof.
  unfold end_of_doc_at, start_of_doc_at.
  destruct (Z.geb_spec (idx + 1) (len (char_locs enc))) as [|Hlt]; [discriminate|].
  intros Hid. split; [lia | exact Hid].
Qed.

(** Until a chunk begins with the start marker, the loop of predict can
    only fail: at the latest when it reaches the chunk that ends the
    document. *)
Lemma stitch_chunks_no_doc m X pre enc step_size todo :
  forall idx st,
    vars st = NoDoc ->
    idx < len (char_locs enc) ->
    len (char_locs enc) <= idx + len todo ->
    start_of_doc_at m enc idx <> Ok true ->
    exists e, stitch_chunks m X pre enc step_size idx todo st = Raise e.
Proof.
  induction todo as [|[label_seq position_seq] todo IH]; intros idx st Hv Hidx Hlen Hstart.
  - unfold len in Hlen at 2. simpl in Hlen. lia.
  - cbn [stitch_chunks]. unfold stitch_chunk.
    destruct (start_of_doc_at m enc idx) as [[|]|e]; cbn [Py.bind]; eauto;
      [contradiction|].
    destruct (end_of_doc_at m enc idx) as [ed|e] eqn:Eend; cbn [Py.bind]; eauto.
    rewrite Hv.
    destruct (stitch_tokens_no_doc X pre (doc_idx st)
                (zip (window step_size false ed label_seq)
                     (window step_size false ed position_seq))) as [E|[e E]];
      rewrite E; cbn [Py.bind]; eauto.
    destruct ed.
    + unfold flush. cbn [vars Py.bind]. eauto.
    + cbn [Py.bind]. destruct (end_of_doc_false_next m enc idx Eend) as [Hnext Hs].
      apply IH.
      * reflexivity.
      * exact Hnext.
      * change (len ((label_seq, position_seq) :: todo)) with
          (Z.of_nat (S (List.length todo))) in Hlen.
        unfold len at 2. lia.
      * rewrite Hs. discriminate.
Qed.

Lemma collect_chunks_unbound {proba : Type} m enc step_size
  (todo : list (list token * list (list proba))) :
  forall idx st,
    seq_result st = None ->
    idx < len (char_locs enc) ->
    len (char_locs enc) <= idx + len todo ->
    start_of_doc_at m enc idx <> Ok true ->
    exists e, collect_chunks proba m enc step_size idx todo st = Raise e.
Proof.
  induction todo as [|[token_seq proba_seq] todo IH]; intros idx st Hv Hidx Hlen Hstart.
  - unfold len in Hlen at 2. simpl in Hlen. lia.
  - cbn [collect_chunks]. unfold collect_chunk.
    destruct (start_of_doc_at m enc idx) as [[|]|e]; cbn [Py.bind]; eauto;
      [contradiction|].
    destruct (end_of_doc_at m enc idx) as [ed|e] eqn:Eend; cbn [Py.bind]; eauto.
    rewrite Hv.
    destruct (collect_tokens_unbound m
                (zip (window step_size false ed token_seq)
                     (window step_size false ed proba_seq))) as [E|[e E]];
      rewrite E; cbn [Py.bind]; eauto.
    destruct ed; cbn [Py.bind]; [eauto|].
    destruct (end_of_doc_false_next m enc idx Eend) as [Hnext Hs].
    apply IH.
    + reflexivity.
    + exact Hnext.
    + change (len ((token_seq, proba_seq) :: todo)) with
        (Z.of_nat (S (List.length todo))) in Hlen.
      unfold len at 2. lia.
    + rewrite Hs. discriminate.
Qed.

(** X7.  A batch whose first chunk does not begin with the encoder's
    start marker gets no answer: when there is a decoded array for every
    chunk, predict raises, and so does predict_proba when there are tokens
    and scores for every chunk. *)
Theorem batch_without_start_marker_raises :
  forall (proba : Type) (m : Model) (X : list text) (pre : list (list text))
         (enc : ArrayEncodedOutput) (step_size : Z)
         (labels : list (list label)) (batch_probas : list (list (list proba))),
    start_of_doc_at m enc 0 <> Ok true ->
    (0 < List.length (char_locs enc))%nat ->
    (List.length (char_locs enc) <= List.length labels)%nat ->
    (List.length (char_locs enc) <= List.length (tokens enc))%nat ->
    (List.length (char_locs enc) <= List.length batch_probas)%nat ->
    (exists e, predict_stitch m X pre enc step_size labels = Raise e)
    /\ (exists e, predict_proba_collect proba m enc step_size batch_probas = Raise e).
Proof.
  intros proba m X pre enc step_size labels batch_probas Hstart Hpos Hl Ht Hp.
  split.
  - destruct (stitch_chunks_no_doc m X pre enc step_size
                (zip labels (char_locs enc)) 0 stitch_init) as [e E];
      try assumption; try reflexivity.
    + unfold len. lia.
    + unfold len, zip. rewrite length_combine. lia.
    + exists e. unfold predict_stitch. rewrite E. reflexivity.
  - destruct (collect_chunks_unbound m enc step_size
                (zip (tokens enc) batch_probas) 0 proba_init) as [e E];
      try assumption; try reflexivity.
    + unfold len. lia.
    + unfold len, zip. rewrite length_combine. lia.
    + exists e. unfold predict_proba_collect. rewrite E. reflexivity.
Qed.

Lemma batch_without_start_marker_raises_witness :
  (exists e,
     predict_stitch Sample.m Sample.X Sample.pre (encode [[Sample.c2; Sample.c3]]) 2
       (decoded_labels [[Sample.c2; Sample.c3]]) = Raise e)
  /\ (exists e,
        predict_proba_collect Z Sample.m (encode [[Sample.c2; Sample.c3]]) 2
          (decoded_probas [[Sample.c2; Sample.c3]]) = Raise e).
Proof.
  assert (H0 : start_of_doc_at Sample.m (encode [[Sample.c2; Sample.c3]]) 0 <> Ok true)
    by (vm_compute; discriminate).
  assert (H1 : (0 < List.length (char_locs (encode [[Sample.c2; Sample.c3]])))%nat)
    by (vm_compute; lia).
  assert (H2 : (List.length (char_locs (encode [[Sample.c2; Sample.c3]]))
                <= List.length (decoded_labels [[Sample.c2; Sample.c3]]))%nat)
    by (vm_compute; lia).
  assert (H3 : (List.length (char_locs (encode [[Sample.c2; Sample.c3]]))
                <= List.length (tokens (encode [[Sample.c2; Sample.c3]])))%nat)
    by (vm_compute; lia).
  assert (H4 : (List.length (char_locs (encode [[Sample.c2; Sample.c3]]))
                <= List.length (decoded_probas [[Sample.c2; Sample.c3]]))%nat)
    by (vm_compute; lia).
  exact (batch_without_start_marker_raises Z Sample.m Sample.X Sample.pre
           (encode [[Sample.c2; Sample.c3]]) 2
           (decoded_labels [[Sample.c2; Sample.c3]])
           (decoded_probas [[Sample.c2; Sample.c3]]) H0 H1 H2 H3 H4).
Defined.

(** * The tokenizer input that [doc_subseqs] first names *)

Lemma stitch_token_any_pre X pre pre' idx v lp v' :
  stitch_token X pre idx v lp = Ok v' -> stitch_token X pre' idx v lp = Ok v'.
Proof.
  destruct lp as [lab pos]. unfold stitch_token.
  destruct (pos =? -1); [trivial|].
  destruct v as [|s l p]; [|trivial].
  destruct pre; [destruct (getitem X idx)|]; discriminate.
Qed.

Lemma stitch_tokens_any_pre X pre pre' idx pairs :
  forall v v',
    stitch_tokens X pre idx v pairs = Ok v' ->
    stitch_tokens X pre' idx v pairs = Ok v'.
Proof.
  induction pairs as [|lp pairs IH]; intros v v'; [trivial|].
  cbn [stitch_tokens].
  destruct (stitch_token X pre idx v lp) as [v1|e] eqn:E; cbn [Py.bind]; [|discriminate].
  rewrite (stitch_token_any_pre X pre pre' idx v lp v1 E). cbn [Py.bind]. apply IH.
Qed.

Lemma stitch_chunks_any_pre m X pre pre' enc step_size todo :
  forall idx st st',
    stitch_chunks m X pre enc step_size idx todo st = Ok st' ->
    stitch_chunks m X pre' enc step_size idx todo st = Ok st'.
Proof.
  induction todo as [|[label_seq position_seq] todo IH]; intros idx st st'; [trivial|].
  cbn [stitch_chunks]. unfold stitch_chunk.
  destruct (start_of_doc_at m enc idx) as [sd|e]; cbn [Py.bind]; [|discriminate].
  destruct (end_of_doc_at m enc idx) as [ed|e]; cbn [Py.bind]; [|discriminate].
  destruct (stitch_tokens X pre _ _ _) as [v1|e] eqn:E; cbn [Py.bind]; [|discriminate].
  rewrite (stitch_tokens_any_pre X pre pre' _ _ _ _ E). cbn [Py.bind].
  destruct (if ed then _ else _) as [st1|e]; cbn [Py.bind]; [|discriminate].
  apply IH.
Qed.

(** X8.  predict reuses the name [doc_subseqs]: until the first
    document starts it is the tokenizer's output.  That value never
    reaches a result: whenever the loop of predict returns, it returns
    the same with any other value in its place. *)
Theorem predict_result_ignores_tokenizer_input :
  forall (m : Model) (X : list text) (pre pre' : list (list text))
         (enc : ArrayEncodedOutput) (step_size : Z) (labels : list (list label))
         (r : list (list text) * list (list label)),
    predict_stitch m X pre enc step_size labels = Ok r ->
    predict_stitch m X pre' enc step_size labels = Ok r.
Proof.
  intros m X pre pre' enc step_size labels r. unfold predict_stitch.
  destruct (stitch_chunks m X pre enc step_size 0 _ stitch_init) as [st|e] eqn:E;
    cbn [Py.bind]; [|discriminate].
  rewrite (stitch_chunks_any_pre m X pre pre' enc step_size _ _ _ _ E).
  trivial.
Qed.

Lemma predict_result_ignores_tokenizer_input_witness :
  predict_stitch Sample.m Sample.X [] (encode Sample.docs) 2
    (decoded_labels Sample.docs)
  = Ok ([[list_ascii_of_string "ab"; list_ascii_of_string "cdef";
          list_ascii_of_string "gh"];
         [list_ascii_of_string "xy"]],
        [["A"; "B"; "A"]; ["B"]]%string).
Proof.
  exact (predict_result_ignores_tokenizer_input Sample.m Sample.X Sample.pre []
           (encode Sample.docs) 2 (decoded_labels Sample.docs) _ eq_refl).
Defined.

(** * Missing rows of token ids *)

Lemma first_token_id_beyond enc idx :
  0 <= idx -> len (token_ids enc) <= idx ->
  first_token_id enc idx = Raise IndexError.
Proof.
  intros H0 H. unfold first_token_id, getitem at 1. cbv zeta.
  destruct (Z.ltb_spec idx 0); [lia|].
  destruct (Z.ltb_spec idx 0); [lia|].
  unfold len in H. rewrite (proj2 (nth_error_None _ _)) by lia. reflexivity.
Qed.

Lemma stitch_chunks_missing_ids m X pre enc step_size todo :
  forall idx st,
    0 <= idx ->
    idx <= len (token_ids enc) ->
    len (token_ids enc) < idx + len todo ->
    exists e, stitch_chunks m X pre enc step_size idx todo st = Raise e.
Proof.
  induction todo as [|[label_seq position_seq] todo IH]; intros idx st H0 Hle Hlt.
  - unfold len in Hlt at 2. simpl in Hlt. lia.
  - cbn [stitch_chunks].
    destruct (Z.eq_dec idx (len (token_ids enc))) as [Heq|Hne].
    + unfold stitch_chunk, start_of_doc_at.
      rewrite first_token_id_beyond by lia. cbn [Py.bind]. eauto.
    + destruct (stitch_chunk m X pre enc step_size idx label_seq position_seq st)
        as [st1|e]; cbn [Py.bind]; eauto.
      apply IH; try lia.
      change (len ((label_seq, position_seq) :: todo)) with
        (Z.of_nat (S (List.length todo))) in Hlt.
      unfold len at 2. lia.
Qed.

Lemma collect_chunks_missing_ids {proba : Type} m enc step_size
  (todo : list (list token * list (list proba))) :
  forall idx st,
    0 <= idx ->
    idx <= len (token_ids enc) ->
    len (token_ids enc) < idx + len todo ->
    exists e, collect_chunks proba m enc step_size idx todo st = Raise e.
Proof.
  induction todo as [|[token_seq proba_seq] todo IH]; intros idx st H0 Hle Hlt.
  - unfold len in Hlt at 2. simpl in Hlt. lia.
  - cbn [collect_chunks].
    destruct (Z.eq_dec idx (len (token_ids enc))) as [Heq|Hne].
    + unfold collect_chunk, start_of_doc_at.
      rewrite first_token_id_beyond by lia. cbn [Py.bind]. eauto.
    + destruct (collect_chunk proba m enc step_size idx token_seq proba_seq st)
        as [st1|e]; cbn [Py.bind]; eauto.
      apply IH; try lia.
      change (len ((token_seq, proba_seq) :: todo)) with
        (Z.of_nat (S (List.length todo))) in Hlt.
      unfold len at 2. lia.
Qed.

(** X9.  Both loops read [token_ids] at the index of every chunk they
    visit: when [token_ids] has fewer entries than there are pairs to
    visit, predict and predict_proba raise instead of returning the
    documents seen so far. *)
Theorem missing_token_ids_raise :
  forall (proba : Type) (m : Model) (X : list text) (pre : list (list text))
         (enc : ArrayEncodedOutput) (step_size : Z)
         (labels : list (list label)) (batch_probas : list (list (list proba))),
    (List.length (token_ids enc) < List.length (zip labels (char_locs enc)))%nat ->
    (List.length (token_ids enc) < List.length (zip (tokens enc) batch_probas))%nat ->
    (exists e, predict_stitch m X pre enc step_size labels = Raise e)
    /\ (exists e, predict_proba_collect proba m enc step_size batch_probas = Raise e).
Proof.
  intros proba m X pre enc step_size labels batch_probas H1 H2. split.
  - destruct (stitch_chunks_missing_ids m X pre enc step_size
                (zip labels (char_locs enc)) 0 stitch_init) as [e E];
      try (unfold len; lia).
    exists e. unfold predict_stitch. rewrite E. reflexivity.
  - destruct (collect_chunks_missing_ids m enc step_size
                (zip (tokens enc) batch_probas) 0 proba_init) as [e E];
      try (unfold len; lia).
    exists e. unfold predict_proba_collect. rewrite E. reflexivity.
Qed.

Lemma missing_token_ids_raise_witness :
  let enc := {| token_ids := firstn 3 (token_ids (encode Sample.docs));
                tokens := tokens (encode Sample.docs);
                char_locs := char_locs (encode Sample.docs) |} in
  (exists e,
     predict_stitch Sample.m Sample.X Sample.pre enc 2 (decoded_labels Sample.docs)
     = Raise e)
  /\ (exists e,
        predict_proba_collect Z Sample.m enc 2 (decoded_probas Sample.docs)
        = Raise e).
Proof.
  intros enc.
  assert (H1 : (List.length (token_ids enc)
                < List.length (zip (decoded_labels Sample.docs) (char_locs enc)))%nat)
    by (vm_compute; lia).
  assert (H2 : (List.length (token_ids enc)
                < List.length (zip (tokens enc) (decoded_probas Sample.docs)))%nat)
    by (vm_compute; lia).
  exact (missing_token_ids_raise Z Sample.m Sample.X Sample.pre enc 2
           (decoded_labels Sample.docs) (decoded_probas Sample.docs) H1 H2).
Defined.

(** * The distribution of a token *)

Lemma dict_set_fresh {V : Type} (k : string) (v : V) (d : list (string * V)) :
  ~ In k (map fst d) -> dict_set k v d = d ++ [(k, v)].
Proof.
  induction d as [|[k' v'] d IH]; intros H; [reflexivity|].
  cbn [dict_set]. cbn [map fst In] in H.
  destruct (String.eqb_spec k k') as [->|_]; [exfalso; apply H; left; reflexivity|].
  cbn [app]. f_equal. apply IH. intros Hin. apply H. right. exact Hin.
Qed.

Lemma dict_fold_distinct {V : Type} (keys : list string) :
  forall (vals : list V) (acc : list (string * V)),
    NoDup keys ->
    (forall k, In k keys -> ~ In k (map fst acc)) ->
    fold_left (fun d kv => dict_set (fst kv) (snd kv) d) (combine keys vals) acc
    = acc ++ combine keys vals.
Proof.
  induction keys as [|k keys IH]; intros vals acc Hnd Hacc.
  - cbn. rewrite app_nil_r. reflexivity.
  - destruct vals as [|v vals]; [cbn; rewrite app_nil_r; reflexivity|].
    inversion Hnd as [|? ? Hk Hnd']; subst.
    cbn [combine fold_left fst snd].
    rewrite dict_set_fresh by (apply Hacc; left; reflexivity).
    rewrite IH.
    + rewrite <- app_assoc. reflexivity.
    + exact Hnd'.
    + intros k' Hk'. rewrite map_app. cbn [map fst]. intros Hin.
      apply in_app_or in Hin as [Hin|[->|[]]].
      * apply (Hacc k'); [right; exact Hk' | exact Hin].
      * exact (Hk Hk').
Qed.

Lemma dict_zip_distinct {V : Type} (keys : list string) (vals : list V) :
  NoDup keys -> dict (zip keys vals) = combine keys vals.
Proof.
  intros H. unfold dict, zip.
  rewrite dict_fold_distinct; [reflexivity | exact H | intros k _ []].
Qed.

Lemma dict_get_combine {V : Type} (keys : list string) :
  forall (vals : list V) (i : nat) (c : string) (p : V),
    NoDup keys ->
    nth_error keys i = Some c ->
    nth_error vals i = Some p ->
    dict_get (combine keys vals) c = Some p.
Proof.
  induction keys as [|k keys IH]; intros vals i c p Hnd Hc Hp.
  - destruct i; discriminate.
  - destruct vals as [|v vals]; [destruct i; discriminate|].
    inversion Hnd as [|? ? Hk Hnd']; subst.
    destruct i as [|i]; cbn in Hc, Hp.
    + injection Hc as ->. injection Hp as ->. cbn. rewrite String.eqb_refl. reflexivity.
    + cbn [combine dict_get].
      destruct (String.eqb_spec c k) as [->|_].
      * exfalso. apply Hk. eapply nth_error_In. exact Hc.
      * eapply IH; eauto.
Qed.

(** X10.  When the classes of the label encoder are distinct, the
    token loop of predict_proba appends, for a token, the classes in the
    encoder's order, class [i] with the token's score [i], as far as both
    go; looking a class up in that distribution gives the score at the
    class's position. *)
Theorem token_distribution_follows_classes :
  forall (proba : Type) (m : Model) (seq_result : list (token_proba proba))
         (tok : token) (proba_t : list proba),
    NoDup (classes_ m) ->
    collect_token proba m (Some seq_result) (tok, proba_t)
    = Ok (Some (seq_result ++ [(tok, combine (classes_ m) proba_t)]))
    /\ forall i c p,
         nth_error (classes_ m) i = Some c ->
         nth_error proba_t i = Some p ->
         dict_get (dict (zip (classes_ m) proba_t)) c = Some p.
Proof.
  intros proba m seq_result tok proba_t Hnd. split.
  - cbn [collect_token]. rewrite dict_zip_distinct by exact Hnd. reflexivity.
  - intros i c p Hc Hp. rewrite dict_zip_distinct by exact Hnd.
    eapply dict_get_combine; eauto.
Qed.

Lemma token_distribution_follows_classes_witness :
  NoDup (classes_ Sample.m)
  /\ dict_get (dict (zip (classes_ Sample.m) [10; 700; 290])) "A" = Some 700.
Proof.
  assert (H : NoDup (classes_ Sample.m)).
  { repeat constructor; cbn; intuition discriminate. }
  split; [exact H|].
  exact (proj2 (token_distribution_follows_classes Z Sample.m [] "a"%string
                  [10; 700; 290] H)
           1%nat "A"%string 700 eq_refl eq_refl).
Defined.

(** * [_format_for_encoding] *)

(** X11.  [_format_for_encoding] wraps every example in a list of its
    own: as many entries as examples, each holding one field, and
    flattening the result gives the examples back. *)
Theorem format_for_encoding_single_field :
  forall (A : Type) (Xs : list A),
    List.length (_format_for_encoding Xs) = List.length Xs
    /\ Forall (fun fields => List.length fields = 1%nat) (_format_for_encoding Xs)
    /\ List.concat (_format_for_encoding Xs) = Xs
    /\ forall i x, nth_error Xs i = Some x ->
                   nth_error (_format_for_encoding Xs) i = Some [x].
Proof.
  intros A Xs. unfold _format_for_encoding. split; [apply length_map|].
  split; [|split].
  - apply Forall_map. apply Forall_forall. reflexivity.
  - induction Xs as [|x Xs IH]; [reflexivity|]. cbn. f_equal. exact IH.
  - intros i x H. exact (map_nth_error (fun X => [X]) i Xs H).
Qed.

(** * Chunk boundaries *)

Lemma combine_map_r {A B C : Type} (f : B -> C) (X : list A) :
  forall docs : list B,
    map (fun dg => (fst dg, f (snd dg))) (combine X docs) = combine X (map f docs).
Proof.
  induction X as [|x X IH]; intros [|g docs]; simpl; try reflexivity.
  f_equal. apply IH.
Qed.

Lemma stitched_by_pairs {proba : Type} step_size X (docs : list (list (chunk proba))) :
  stitched step_size X docs
  = map (fun dp => stitch_doc (fst dp) (snd dp))
        (combine X (map (doc_pairs step_size true) docs)).
Proof.
  unfold stitched. rewrite <- combine_map_r, map_map. reflexivity.
Qed.

(** X12.  How a document's tokens are cut into chunks does not show in
    what predict hands over: two laid-out batches whose documents have the
    same authoritative (label, char-location) pairs give the same span
    texts and labels. *)
Theorem chunk_boundaries_are_invisible :
  forall (proba : Type) (m : Model) (X : list text) (pre : list (list text))
         (step_size : Z) (docs docs' : list (list (chunk proba))),
    batch_layout m docs = true ->
    batch_layout m docs' = true ->
    List.length X = List.length docs ->
    map (doc_pairs step_size true) docs = map (doc_pairs step_size true) docs' ->
    predict_stitch m X pre (encode docs) step_size (decoded_labels docs)
    = predict_stitch m X pre (encode docs') step_size (decoded_labels docs').
Proof.
  intros proba m X pre step_size docs docs' Hlay Hlay' HX Hpairs.
  assert (HX' : List.length X = List.length docs').
  { rewrite HX, <- (length_map (doc_pairs step_size true) docs), Hpairs.
    apply length_map. }
  rewrite !predict_stitch_layout by assumption.
  rewrite !stitched_by_pairs, Hpairs. reflexivity.
Qed.

Lemma chunk_boundaries_are_invisible_witness :
  let whole : chunk Z :=
    {| ch_ids := [[40478; 40481]];
       ch_tokens := ["_start_"; "a"; "b"; "c"; "d"; "e"; "f"; "g"; "h";
                     "_classify_"]%string;
       ch_locs := [-1; 1; 2; 3; 4; 5; 6; 7; 8; -1];
       ch_labels := ["<PAD>"; "A"; "A"; "B"; "B"; "B"; "B"; "A"; "A"; "<PAD>"]%string;
       ch_probas := [] |} in
  predict_stitch Sample.m Sample.X Sample.pre (encode Sample.docs) 2
    (decoded_labels Sample.docs)
  = predict_stitch Sample.m Sample.X Sample.pre (encode [[whole]; [Sample.c4]]) 2
      (decoded_labels [[whole]; [Sample.c4]]).
Proof.
  intros whole.
  exact (chunk_boundaries_are_invisible Z Sample.m Sample.X Sample.pre 2
           Sample.docs [[whole]; [Sample.c4]] eq_refl eq_refl eq_refl eq_refl).
Defined.

(** * predict on a document cut one step apart *)

Lemma map_snd_zip {A B : Type} (a : list A) :
  forall b : list B, (List.length b <= List.length a)%nat -> map snd (zip a b) = b.
Proof.
  unfold zip. induction a as [|x a IH]; intros [|y b] H; simpl in *; try lia.
  - reflexivity.
  - reflexivity.
  - f_equal. apply IH. lia.
Qed.

(** When every chunk has as many labels as char-locations, the
    char-locations of a document's pairs are the windows of its chunks'
    char-locations. *)
Lemma doc_pairs_locs {proba : Type} step_size (g : list (chunk proba)) :
  forall is_first,
    Forall (fun c => List.length (ch_labels c) = List.length (ch_locs c)) g ->
    map snd (doc_pairs step_size is_first g)
    = doc_windows step_size is_first (map ch_locs g).
Proof.
  induction g as [|c g IH]; intros is_first H; [reflexivity|].
  inversion H as [|? ? Hc Hg]; subst.
  cbn [doc_pairs map doc_windows]. rewrite map_app, is_nil_map.
  rewrite (IH false Hg). f_equal. apply map_snd_zip.
  rewrite (length_window_same step_size is_first (is_nil g) _ _ Hc). lia.
Qed.

(** X13.  predict on a laid-out batch, end to end for one document: when
    the chunks of the document hold its char-locations [locs] one step
    apart (as in X3), with as many labels as char-locations in each chunk,
    and the char-locations that are not padding never go back, the span
    texts handed over for the document, concatenated, are the document's
    text up to the last of these char-locations. *)
Theorem predict_covers_strided_document :
  forall (proba : Type) (m : Model) (X : list text) (pre : list (list text))
         (step_size width : Z) (docs : list (list (chunk proba)))
         (i : nat) (doc : text) (g : list (chunk proba)) (locs : list Z) (k : nat),
    batch_layout m docs = true ->
    List.length X = List.length docs ->
    nth_error X i = Some doc ->
    nth_error docs i = Some g ->
    Forall (fun c => List.length (ch_labels c) = List.length (ch_locs c)) g ->
    map ch_locs g = map (chunk_at step_size width locs) (List.seq 0 k) ->
    0 <= step_size ->
    2 * step_size <= width ->
    (1 <= k)%nat ->
    ((2 <= k)%nat -> Z.of_nat k * step_size <= len locs) ->
    len locs <= (Z.of_nat k - 1) * step_size + width ->
    ascending 0 (filter (fun p => negb (p =? -1)) locs) = true ->
    exists subseqs labels doc_subseqs,
      predict_stitch m X pre (encode docs) step_size (decoded_labels docs)
      = Ok (subseqs, labels)
      /\ nth_error subseqs i = Some doc_subseqs
      /\ List.concat doc_subseqs
         = slice (Some 0)
             (Some (last (filter (fun p => negb (p =? -1)) locs) 0)) doc.
Proof.
  intros proba m X pre step_size width docs i doc g locs k
         Hlay HX Hdoc Hg Hrows Hlocs Hs Hw Hk Hfull Hend Hasc.
  assert (Hl : locations (doc_pairs step_size true g)
               = filter (fun p => negb (p =? -1)) locs).
  { unfold locations. rewrite (doc_pairs_locs step_size g true Hrows), Hlocs.
    rewrite doc_windows_strided by assumption. reflexivity. }
  rewrite <- Hl in *.
  exists (map fst (stitched step_size X docs)), (map snd (stitched step_size X docs)).
  eexists. split; [apply predict_stitch_layout; assumption|].
  pose proof (nth_error_stitched step_size X docs i doc g Hdoc Hg) as Hrec.
  split; [exact (map_nth_error fst i _ Hrec)|].
  destruct (stitch_doc_spans doc (doc_pairs step_size true g)) as (_ & _ & Ht).
  rewrite (Ht Hasc). unfold spans_of.
  assert (HM : machine_ok (fold_left machine_step (doc_pairs step_size true g)
                             machine_reset))
    by (apply machine_run_ok; [exact machine_reset_ok | exact Hasc]).
  destruct (machine_ok_contiguous _ HM) as [Hc Hfin].
  rewrite (concat_span_texts doc _ 0 (Z.le_refl 0) Hc), Hfin.
  rewrite machine_run_cursor. reflexivity.
Qed.

Lemma predict_covers_strided_document_witness :
  exists subseqs labels doc_subseqs,
    predict_stitch Sample.m Sample.X Sample.pre (encode Sample.docs) 2
      (decoded_labels Sample.docs)
    = Ok (subseqs, labels)
    /\ nth_error subseqs 0 = Some doc_subseqs
    /\ List.concat doc_subseqs = list_ascii_of_string "abcdefgh".
Proof.
  assert (Hrows : Forall (fun c : chunk Z =>
                            List.length (ch_labels c) = List.length (ch_locs c))
                    [Sample.c1; Sample.c2; Sample.c3])
    by (repeat constructor).
  assert (H1 : 0 <= 2) by lia.
  assert (H2 : 2 * 2 <= 6) by lia.
  assert (H3 : (1 <= 3)%nat) by lia.
  assert (H4 : (2 <= 3)%nat ->
               Z.of_nat 3 * 2 <= len [-1; 1; 2; 3; 4; 5; 6; 7; 8; -1])
    by (intros _; vm_compute; discriminate).
  assert (H5 : len [-1; 1; 2; 3; 4; 5; 6; 7; 8; -1] <= (Z.of_nat 3 - 1) * 2 + 6)
    by (vm_compute; discriminate).
  exact (predict_covers_strided_document Z Sample.m Sample.X Sample.pre 2 6
           Sample.docs 0 (list_ascii_of_string "abcdefgh")
           [Sample.c1; Sample.c2; Sample.c3] [-1; 1; 2; 3; 4; 5; 6; 7; 8; -1] 3
           eq_refl eq_refl eq_refl eq_refl Hrows eq_refl H1 H2 H3 H4 H5 eq_refl).
Defined.

(** * The step size *)

(** X14.  For a [max_length] that leaves room for the two markers, the
    step size predict and predict_proba compute is not negative and three
    steps fit into the chunk size, with fewer than three positions to
    spare; so two steps always fit into a chunk of [max_length]
    positions, as the windows of X3 need. *)
Theorem step_size_bounds :
  forall max_length : Z,
    2 <= max_length ->
    0 <= step_size_of max_length
    /\ 3 * step_size_of max_length <= chunk_size_of max_length
    /\ chunk_size_of max_length < 3 * step_size_of max_length + 3
    /\ 2 * step_size_of max_length <= max_length.
Proof.
  intros max_length H. unfold step_size_of, chunk_size_of.
  pose proof (Z.div_mod (max_length - 2) 3 ltac:(lia)) as Hdm.
  pose proof (Z.mod_pos_bound (max_length - 2) 3 ltac:(lia)) as Hb.
  lia.
Qed.

Lemma step_size_bounds_witness :
  2 <= 512
  /\ step_size_of 512 = 170
  /\ 3 * step_size_of 512 <= chunk_size_of 512.
Proof.
  assert (H : 2 <= 512) by lia.
  split; [exact H|]. split; [reflexivity|].
  exact (proj1 (proj2 (step_size_bounds 512 H))).
Defined.

(** * The authoritative range in the two methods *)

(** With [max_length = 1] the step size is [(1 - 2) // 3 = -1] and the
    bounds of the slices count from the end of the chunk: a first chunk
    that is not last keeps all but its last two positions, not the
    positions of [0, 2*step_size), which are none; predict_proba on the
    sample batch returns for the first document the first four tokens of
    its first chunk, nothing of its middle chunk and the last token of
    its last chunk. *)
Lemma negative_step_counts_from_the_end :
  (1 - 2) / 3 = -1
  /\ window ((1 - 2) / 3) true false ["t0"; "t1"; "t2"; "t3"; "t4"]%string
     = ["t0"; "t1"; "t2"]%string
  /\ exists records record,
       predict_proba Z
         (fun X => map (fun d => [d]) X)
         (fun _ => encode Sample.docs)
         (fun _ _ => decoded_probas Sample.docs)
         Sample.m Sample.X (Some 1)
       = Ok records
       /\ nth_error records 0 = Some record
       /\ map fst record = ["_start_"; "a"; "b"; "c"; "_classify_"]%string.
Proof.
  split; [reflexivity|]. split; [reflexivity|].
  eexists. eexists. split; [vm_compute; reflexivity|].
  split; [reflexivity|]. reflexivity.
Qed.

(** C1, as the code has it.  For every [max_length] (after the default
    of the configuration is taken) of at least 2, predict and
    predict_proba compute [step_size = (max_length - 2) // 3] and, on a
    batch laid out document by document, build every document's record
    from the windows of its chunks at that step, flagged first for the
    document's first chunk and last for its last chunk; and the window at
    that step keeps exactly: every position when the chunk is first and
    last, the positions of [0, 2*step_size) when it is first only, those
    of [step_size, end) when it is last only, and those of
    [step_size, 2*step_size) otherwise. *)
Theorem authoritative_range_of_each_chunk :
  forall (proba annotations : Type)
         (indico_to_finetune_sequence : list text -> list (list text))
         (finetune_to_indico_sequence :
            list text -> list (list text) -> list (list label) -> bool -> annotations)
         (_text_to_ids : list (list text) -> ArrayEncodedOutput)
         (_predict : list (list text) -> Z -> list (list label))
         (_predict_proba : list (list text) -> option Z -> list (list (list proba)))
         (m : Model) (X : list text) (max_length : option Z)
         (docs : list (list (chunk proba))),
    2 <= max_length_or max_length (config_max_length m) ->
    _text_to_ids (indico_to_finetune_sequence X) = encode docs ->
    batch_layout m docs = true ->
    List.length X = List.length docs ->
    _predict (indico_to_finetune_sequence X)
      (max_length_or max_length (config_max_length m)) = decoded_labels docs ->
    _predict_proba (indico_to_finetune_sequence X) max_length = decoded_probas docs ->
    let step_size := (max_length_or max_length (config_max_length m) - 2) / 3 in
    predict annotations indico_to_finetune_sequence finetune_to_indico_sequence
      _text_to_ids _predict m X max_length
    = Ok (finetune_to_indico_sequence X
            (map (fun dg => fst (stitch_doc (fst dg) (doc_pairs step_size true (snd dg))))
                 (combine X docs))
            (map (fun dg => snd (stitch_doc (fst dg) (doc_pairs step_size true (snd dg))))
                 (combine X docs))
            (config_subtoken_predictions m))
    /\ predict_proba proba indico_to_finetune_sequence _text_to_ids _predict_proba
         m X max_length
       = Ok (map (fun g => proba_record m (doc_token_probas step_size true g)) docs)
    /\ forall (A : Type) (is_first is_last : bool) (seq : list A) (k : nat),
         nth_error (window step_size is_first is_last seq) k
         = match is_first, is_last with
           | true, true => nth_error seq k
           | true, false =>
               if Z.of_nat k <? 2 * step_size then nth_error seq k else None
           | false, true => nth_error seq (Z.to_nat step_size + k)
           | false, false =>
               if step_size + Z.of_nat k <? 2 * step_size
               then nth_error seq (Z.to_nat step_size + k) else None
           end.
Proof.
  intros proba annotations i2f f2i t2i p pp m X max_length docs
         Hml Henc Hlay HX Hp Hpp step_size.
  assert (Hs : 0 <= step_size) by (apply Z.div_pos; lia).
  split; [|split].
  - unfold predict. fold step_size. rewrite Henc, Hp.
    rewrite predict_stitch_layout by assumption.
    cbn [Py.bind]. unfold stitched. rewrite !map_map. reflexivity.
  - unfold predict_proba. fold step_size. rewrite Henc, Hpp.
    rewrite predict_proba_collect_layout by assumption. reflexivity.
  - intros A is_first is_last seq k. apply window_positions. exact Hs.
Qed.

Lemma authoritative_range_of_each_chunk_witness :
  2 <= max_length_or (Some 8) (config_max_length Sample.m)
  /\ batch_layout Sample.m Sample.docs = true
  /\ List.length Sample.X = List.length Sample.docs
  /\ predict (list (list text) * list (list label))
       (fun X => map (fun d => [d]) X)
       (fun _ subseqs labels _ => (subseqs, labels))
       (fun _ => encode Sample.docs)
       (fun _ _ => decoded_labels Sample.docs)
       Sample.m Sample.X (Some 8)
     = Ok ([[list_ascii_of_string "ab"; list_ascii_of_string "cdef";
             list_ascii_of_string "gh"];
            [list_ascii_of_string "xy"]],
           [["A"; "B"; "A"]; ["B"]]%string)
  /\ nth_error (window ((8 - 2) / 3) false false
                  ["b"; "c"; "d"; "e"; "f"; "g"]%string) 1
     = Some "e"%string.
Proof.
  assert (H : 2 <= max_length_or (Some 8) (config_max_length Sample.m))
    by (vm_compute; discriminate).
  pose proof (authoritative_range_of_each_chunk
                Z (list (list text) * list (list label))
                (fun X => map (fun d => [d]) X)
                (fun _ subseqs labels _ => (subseqs, labels))
                (fun _ => encode Sample.docs)
                (fun _ _ => decoded_labels Sample.docs)
                (fun _ _ => decoded_probas Sample.docs)
                Sample.m Sample.X (Some 8) Sample.docs
                H eq_refl eq_refl eq_refl eq_refl eq_refl) as (Hpredict & _ & Hwin).
  split; [exact H|]. split; [reflexivity|]. split; [reflexivity|].
  split; [exact Hpredict|].
  exact (Hwin string false false ["b"; "c"; "d"; "e"; "f"; "g"]%string 1%nat).
Defined.

(** * Span texts and the text of the document *)



